(** * Two micro-benchmarks: dense matrix product and prime counting

    A shallow embedding of [task.c] (MatrixMultiplyBenchmark) and
    [task2.c] (PrimeRangeCounter).

    - C integers are mathematical integers of [Z] together with the range
      of their type; an arithmetic operation on [int] or [long long]
      whose result leaves the range is signed overflow, which C leaves
      undefined, and ends the run with the fault [SignedOverflow].
      [is_prime] is also given with the arithmetic of a two's-complement
      machine, where the result wraps around instead.
    - [malloc], [rand] and [clock] are the only contact with the outside.
      The results of [malloc] and [rand] come from an environment indexed
      by the number of the call; the result of [clock] comes from an
      environment that sees the state in which the call is made, since
      the processor time depends on what the run has done so far.
    - The heap maps block identifiers to arrays of cells; [malloc] hands
      out a fresh block, or the null pointer when the environment says
      the allocation fails.
    - [printf] appends one record (format string and arguments) to the
      standard output of the state.  The rendering of a [double] by the C
      library is not modelled: the argument stays symbolic. *)

From Stdlib Require Import ZArith Znumtheory Zpow_facts Lia String Ascii.
From stdpp Require Import base tactics option list list_numbers gmap.

Local Open Scope Z_scope.

(** * Part I: the programs *)

(** ** Faults, results and checked signed arithmetic *)

Inductive fault : Type :=
  | NullDeref        (* access through the null pointer *)
  | BadAccess        (* access outside a block, through a non-pointer,
                        or use of an uninitialised cell *)
  | SignedOverflow   (* result of a signed operation out of range *)
  | DivisionByZero   (* [%] with a zero divisor *)
  | OutOfFuel.       (* the iteration bound of the model was reached *)

Inductive res (A : Type) : Type :=
  | Ret (a : A)
  | Err (f : fault).
Arguments Ret {A} a.
Arguments Err {A} f.

#[global] Instance res_ret : MRet res := λ A a, Ret a.
#[global] Instance res_bind : MBind res := λ A B k r,
  match r with
  | Ret a => k a
  | Err f => Err f
  end.

(** A value of a signed type of [w] bits. *)
Definition signed (w : Z) (z : Z) : res Z :=
  if (- 2 ^ (w - 1) <=? z) && (z <? 2 ^ (w - 1)) then Ret z
  else Err SignedOverflow.

Definition INT_MAX : Z := 2 ^ 31 - 1.
Definition LLONG_MAX : Z := 2 ^ 63 - 1.

Definition int_add (a b : Z) : res Z := signed 32 (a + b).
Definition int_mul (a b : Z) : res Z := signed 32 (a * b).
Definition llong_add (a b : Z) : res Z := signed 64 (a + b).
Definition llong_mul (a b : Z) : res Z := signed 64 (a * b).

(** What a two's-complement machine leaves in a register of [w] bits:
    the result modulo [2 ^ w], read as a signed number.  It is the
    argument itself when that is in the range of the type. *)
Definition wrap (w : Z) (z : Z) : Z :=
  let m := 2 ^ w in
  let r := z mod m in
  if r <? m / 2 then r else r - m.

(** ** Standard output *)

(** The value [(double)ticks / CLOCKS_PER_SEC], kept symbolic; [ticks] is
    the difference of two results of [clock()]. *)
Inductive double_expr : Type :=
  | ClockSeconds (ticks : Z).

Inductive arg : Type :=
  | ArgInt (z : Z)
  | ArgDouble (d : double_expr).

Record printf_call : Type := Printf { fmt : string; args : list arg }.

Definition newline : string := String (ascii_of_nat 10) EmptyString.

(** Number of newline characters of a string, and whether it ends with
    one: a format whose directives print numbers writes one line exactly
    when it has one newline, in last position. *)
Fixpoint count_newlines (s : string) : nat :=
  match s with
  | EmptyString => O
  | String c s' =>
      ((if Ascii.eqb c (ascii_of_nat 10) then 1 else 0) + count_newlines s')%nat
  end.

Fixpoint ends_with_newline (s : string) : bool :=
  match s with
  | EmptyString => false
  | String c EmptyString => Ascii.eqb c (ascii_of_nat 10)
  | String _ s' => ends_with_newline s'
  end.

Definition one_line (s : string) : Prop :=
  count_newlines s = 1%nat ∧ ends_with_newline s = true.

(** ** The state-and-fault monad of a run *)

Inductive outcome (St A : Type) : Type :=
  | Done (a : A) (s : St)
  | Crash (f : fault) (s : St).
Arguments Done {St A} a s.
Arguments Crash {St A} f s.

Definition M (St A : Type) : Type := St → outcome St A.

#[global] Instance M_ret {St} : MRet (M St) := λ A a s, Done a s.
#[global] Instance M_bind {St} : MBind (M St) := λ A B k m s,
  match m s with
  | Done a s' => k a s'
  | Crash f s' => Crash f s'
  end.

Definition crash {St A} (f : fault) : M St A := λ s, Crash f s.

Definition lift {St A} (r : res A) : M St A :=
  match r with
  | Ret a => mret a
  | Err f => crash f
  end.

(** [for (i = i0; i < i0 + n; ++i) body] *)
Fixpoint for_loop {St} (n : nat) (i : nat) (body : nat → M St ()) : M St () :=
  match n with
  | O => mret ()
  | S n' => body i;; for_loop n' (S i) body
  end.

(** ** task2.c: PrimeRangeCounter *)

Module task2.

(** One evaluation of the loop of [is_prime] at index [i]: the guard
    [i * i <= n], the test [n % i == 0] and the increment [i++]. *)
Inductive step : Type :=
  | Continue (i' : Z)
  | Return (v : Z).

Definition is_prime_step (n i : Z) : res step :=
  sq ← llong_mul i i;
  if sq <=? n then
    if Z.rem n i =? 0 then Ret (Return 0)
    else i' ← llong_add i 1; Ret (Continue i')
  else Ret (Return 1).

Fixpoint is_prime_loop (fuel : nat) (n i : Z) : res Z :=
  match fuel with
  | O => Err OutOfFuel
  | S fuel' =>
      r ← is_prime_step n i;
      match r with
      | Continue i' => is_prime_loop fuel' n i'
      | Return v => Ret v
      end
  end.

(** The guard is evaluated at most [⌊√n⌋] times, for [i = 2, ..., ⌊√n⌋ + 1];
    fuel beyond that is never consumed. *)
Definition is_prime (n : Z) : res Z :=
  if n <? 2 then Ret 0
  else is_prime_loop (Z.to_nat (Z.sqrt n)) n 2.

(** The indices at which the loop of [is_prime n] evaluates its guard. *)
Inductive visits (n : Z) : Z → Prop :=
  | visits_first : visits n 2
  | visits_next i i' :
      visits n i → is_prime_step n i = Ret (Continue i') → visits n i'.


(** [is_prime] with the arithmetic of a two's-complement machine: a
    result out of the range of [long long] wraps around ([wrap 64])
    where the C standard leaves it undefined.  The guard can then hold at
    indices beyond [⌊√n⌋], so the iteration bound is a parameter of the
    model; [n % i] with [i = 0] is the only fault left. *)
Definition is_prime_step_wrapping (n i : Z) : res step :=
  if wrap 64 (i * i) <=? n then
    if i =? 0 then Err DivisionByZero
    else if Z.rem n i =? 0 then Ret (Return 0)
    else Ret (Continue (wrap 64 (i + 1)))
  else Ret (Return 1).

Fixpoint is_prime_loop_wrapping (fuel : nat) (n i : Z) : res Z :=
  match fuel with
  | O => Err OutOfFuel
  | S fuel' =>
      r ← is_prime_step_wrapping n i;
      match r with
      | Continue i' => is_prime_loop_wrapping fuel' n i'
      | Return v => Ret v
      end
  end.

Definition is_prime_wrapping (fuel : nat) (n : Z) : res Z :=
  if n <? 2 then Ret 0
  else is_prime_loop_wrapping fuel n 2.

(** The wrapping run returns [v]: it does so within some iteration
    bound, and with every larger one. *)
Definition returns_wrapping (n v : Z) : Prop :=
  ∃ fuel, ∀ fuel', (fuel ≤ fuel')%nat → is_prime_wrapping fuel' n = Ret v.

Record state : Type := State {
  clocks : nat;              (* calls of clock() so far *)
  stdout : list printf_call; (* what was printed, oldest first *)
  probes : list Z            (* arguments of the calls of is_prime, oldest first *)
}.

Definition init : state := State 0 [] [].

Definition start : Z := 90000000000.
Definition end_ : Z := 90000100000.

Section Run.

(** [clock_val s] is what [clock()] returns when it is called in the
    state [s]: the processor time used so far may depend on everything
    the run has done, and on the number of the call. *)
Variable clock_val : state → Z.

Definition clock : M state Z := λ s,
  Done (clock_val s) (State (S (clocks s)) (stdout s) (probes s)).

Definition printf (f : string) (a : list arg) : M state () := λ s,
  Done () (State (clocks s) (stdout s ++ [Printf f a]) (probes s)).

(** A call [is_prime(n)], recorded in [probes]. *)
Definition call_is_prime (n : Z) : M state Z := λ s,
  lift (is_prime n) (State (clocks s) (stdout s) (probes s ++ [n])).

(** [for (long long i = start; i <= end; i++) if (is_prime(i)) count++;] *)
Fixpoint main_loop (fuel : nat) (i count : Z) : M state Z :=
  match fuel with
  | O => crash OutOfFuel
  | S fuel' =>
      if i <=? end_ then
        p ← call_is_prime i;
        count' ← (if negb (p =? 0) then lift (int_add count 1) else mret count);
        i' ← lift (llong_add i 1);
        main_loop fuel' i' count'
      else mret count
  end.

Definition main : M state Z :=
  begin ← clock;
  count ← main_loop (Z.to_nat (end_ - start + 2)) start 0;
  finish ← clock;
  printf ("Found %d primes in %.3f seconds" ++ newline)
         [ArgInt count; ArgDouble (ClockSeconds (finish - begin))];;
  mret 0.

End Run.

(** *** Vocabulary of the statements *)

(** Trial division as the specification describes it: [n] has no divisor
    [i] with [2 <= i] and [i * i <= n]. *)
Definition no_divisor_upto_sqrt (n : Z) : Prop :=
  ∀ i, 2 ≤ i → i * i ≤ n → ¬ (i | n).

(** The same in executable form, over the mathematical integers: the
    candidates [i] are 2, 3, ..., up to the last one with [i * i <= n],
    that is [⌊√n⌋]. *)
Definition trial_division (n : Z) : bool :=
  (2 <=? n) && forallb (λ i, negb (Z.rem n i =? 0)) (seqZ 2 (Z.sqrt n - 1)).

(** The test [if (is_prime(n))] of [main]. *)
Definition affirms (n : Z) : bool :=
  match is_prime n with
  | Ret v => negb (v =? 0)
  | Err _ => false
  end.

Definition count_affirmed (l : list Z) : Z :=
  Z.of_nat (length (filter (λ n, affirms n = true) l)).

(** The [%d] argument of the only line printed. *)
Definition printed_count (s : state) : option Z :=
  match stdout s with
  | [Printf _ (ArgInt c :: _)] => Some c
  | _ => None
  end.

(** From this bound on, the guard [i * i <= n] is evaluated at
    [i = 3037000500] when no divisor was met before, and that square does
    not fit in [long long]. *)
Definition overflow_bound : Z := 3037000499 * 3037000499.

(** An index whose square wraps around to [2 ^ 63 - 7], which is above
    every prime of [long long]: the guard of the wrapping loop fails
    there at the latest. *)
Definition last_exit : Z := 2759374635167858507.

End task2.

(** ** task.c: MatrixMultiplyBenchmark *)

Module task.

Definition N : nat := 500.

(** What a cell of an allocated block holds.  [malloc] returns
    uninitialised storage: every cell of a new block is [VUndef]. *)
Inductive val : Type :=
  | VInt (z : Z)
  | VPtr (b : nat)   (* pointer to the first cell of block [b] *)
  | VNull
  | VUndef.

Record state : Type := State {
  heap : gmap nat (list val);
  mallocs : nat;             (* calls of malloc so far *)
  rands : nat;               (* calls of rand() so far *)
  clocks : nat;              (* calls of clock() so far *)
  stdout : list printf_call  (* what was printed, oldest first *)
}.

(** The outside world: whether the [k]-th call of [malloc] succeeds, what
    the [k]-th call of [rand()] returns, and what [clock()] returns when
    it is called in a given state: the processor time used so far may
    depend on everything the run has done, and on the number of the
    call. *)
Record env : Type := Env {
  malloc_ok : nat → bool;
  rand_val : nat → Z;
  clock_val : state → Z
}.

Definition init : state := State ∅ 0 0 0 [].

Definition set_heap (s : state) (h : gmap nat (list val)) : state :=
  State h (mallocs s) (rands s) (clocks s) (stdout s).

Section Run.

Variable e : env.

(** [malloc(cells * sizeof(T))]: the block of the [k]-th call is block [k]. *)
Definition malloc (cells : nat) : M state val := λ s,
  let b := mallocs s in
  if malloc_ok e b then
    Done (VPtr b)
         (State (<[b := replicate cells VUndef]> (heap s)) (S b)
                (rands s) (clocks s) (stdout s))
  else
    Done VNull (State (heap s) (S b) (rands s) (clocks s) (stdout s)).

(** [p[i]] as a value. *)
Definition load (p : val) (i : nat) : M state val := λ s,
  match p with
  | VPtr b =>
      match heap s !! b with
      | Some cells =>
          match cells !! i with
          | Some v => Done v s
          | None => Crash BadAccess s
          end
      | None => Crash BadAccess s
      end
  | VNull => Crash NullDeref s
  | _ => Crash BadAccess s
  end.

(** [p[i] = v] *)
Definition store (p : val) (i : nat) (v : val) : M state () := λ s,
  match p with
  | VPtr b =>
      match heap s !! b with
      | Some cells =>
          if decide (i < length cells)%nat then
            Done () (set_heap s (<[b := <[i := v]> cells]> (heap s)))
          else Crash BadAccess s
      | None => Crash BadAccess s
      end
  | VNull => Crash NullDeref s
  | _ => Crash BadAccess s
  end.

Definition as_int (v : val) : M state Z :=
  match v with
  | VInt z => mret z
  | _ => crash BadAccess
  end.

Definition rand : M state Z := λ s,
  Done (rand_val e (rands s))
       (State (heap s) (mallocs s) (S (rands s)) (clocks s) (stdout s)).

Definition clock : M state Z := λ s,
  Done (clock_val e s)
       (State (heap s) (mallocs s) (rands s) (S (clocks s)) (stdout s)).

Definition printf (f : string) (a : list arg) : M state () := λ s,
  Done () (State (heap s) (mallocs s) (rands s) (clocks s)
                 (stdout s ++ [Printf f a])).

(** Lines 11 to 24 of [main], for a dimension [n]: the three arrays of
    row pointers, then for each [i] the three rows and their contents. *)
Definition main_setup (n : nat) : M state (val * val * val) :=
  A ← malloc n;
  B ← malloc n;
  C ← malloc n;
  for_loop n 0 (λ i,
    a ← malloc n; store A i a;;
    b ← malloc n; store B i b;;
    c ← malloc n; store C i c;;
    for_loop n 0 (λ j,
      pa ← load A i; r ← rand; store pa j (VInt (Z.rem r 10));;
      pb ← load B i; r ← rand; store pb j (VInt (Z.rem r 10));;
      pc ← load C i; store pc j (VInt 0)));;
  mret (A, B, C).

(** Lines 27 to 30: [C[i][j] += A[i][k] * B[k][j]] in the triple loop. *)
Definition main_multiply (n : nat) (A B C : val) : M state () :=
  for_loop n 0 (λ i,
    for_loop n 0 (λ j,
      for_loop n 0 (λ k,
        pc ← load C i; c ← load pc j ≫= as_int;
        pa ← load A i; x ← load pa k ≫= as_int;
        pb ← load B k; y ← load pb j ≫= as_int;
        xy ← lift (int_mul x y);
        sum ← lift (int_add c xy);
        store pc j (VInt sum)))).

Definition main_n (n : nat) : M state Z :=
  ptrs ← main_setup n;
  let '(A, B, C) := ptrs in
  start ← clock;
  main_multiply n A B C;;
  finish ← clock;
  printf ("Elapsed time: %.4f" ++ newline)
         [ArgDouble (ClockSeconds (finish - start))];;
  mret 0.

Definition main : M state Z := main_n N.

End Run.

(** *** Reading a matrix back from the heap *)

(** The integer at [p[i][j]], when [p] points to an array of row pointers. *)
Definition cell (s : state) (p : val) (i j : nat) : option Z :=
  match p with
  | VPtr b =>
      cells ← heap s !! b;
      q ← cells !! i;
      match q with
      | VPtr r =>
          row ← heap s !! r;
          v ← row !! j;
          match v with
          | VInt z => Some z
          | _ => None
          end
      | _ => None
      end
  | _ => None
  end.

Definition entry (s : state) (p : val) (i j : nat) : Z :=
  default 0 (cell s p i j).

(** [f 0 + f 1 + ... + f (n - 1)], added in this order. *)
Fixpoint Zsum (n : nat) (f : nat → Z) : Z :=
  match n with
  | O => 0
  | S n' => Zsum n' f + f n'
  end.

(** An environment in which every allocation fails. *)
Definition no_memory : env := Env (λ _, false) (λ _, 0) (λ _, 0).

(** An environment in which every allocation succeeds. *)
Definition plain_env : env :=
  Env (λ _, true) (λ k, Z.of_nat k) (λ s, Z.of_nat (clocks s)).

(** The environment of the 2 x 2 example of the specification:
    [rand()] returns 1, 5, 2, 6, 3, 7, 4, 8, which makes
    A = [[1, 2], [3, 4]] and B = [[5, 6], [7, 8]]. *)
Definition example_env : env :=
  Env (λ _, true) (λ k, nth k [1; 5; 2; 6; 3; 7; 4; 8] 0)
      (λ s, Z.of_nat (clocks s)).

(** [p[i][j]] at the end of a run. *)
Definition final_cell (o : outcome state Z) (p : val) (i j : nat) : option Z :=
  match o with
  | Done _ s => cell s p i j
  | Crash _ _ => None
  end.

(** *** Invariants of a run *)

(** Layout of the heap while no allocation has failed: blocks 0, 1 and 2
    are the arrays of row pointers of A, B and C, and row [i] of matrix
    number [o] is block [3 + 3 * i + o]. *)
Definition row_block (o i : nat) : nat := (3 + 3 * i + o)%nat.

(** [alloc o i]: row [i] of matrix [o] is allocated and its pointer stored;
    [known o i j]: its cell [j] holds the integer [m o i j]. *)
Definition shape (h : gmap nat (list val)) (n : nat)
    (alloc : nat → nat → bool) (known : nat → nat → nat → bool)
    (m : nat → nat → nat → Z) : Prop :=
  ∀ o, (o < 3)%nat →
    (∃ cells, h !! o = Some cells ∧ length cells = n ∧
       ∀ i, (i < n)%nat → alloc o i = true →
         cells !! i = Some (VPtr (row_block o i))) ∧
    (∀ i, (i < n)%nat → alloc o i = true →
       ∃ row, h !! row_block o i = Some row ∧ length row = n ∧
         ∀ j, (j < n)%nat → known o i j = true →
           row !! j = Some (VInt (m o i j))).

(** The three matrices are complete and hold [m]. *)
Definition matrices (n : nat) (s : state) (m : nat → nat → nat → Z) : Prop :=
  shape (heap s) n (λ _ _, true) (λ _ _ _, true) m.

(** Progress of the allocation-and-fill phase.  Rows [i' < i] are
    allocated, and in row [i] those of the matrices [o' < t]. *)
Definition alloc_stage (i t : nat) (o' i' : nat) : bool :=
  (i' <? i)%nat || ((i' =? i)%nat && (o' <? t)%nat).

(** Rows [i' < i] are filled, row [i] up to column [j], and column [j] of
    row [i] in the matrices [o' < t]. *)
Definition known_stage (i j t : nat) (o' i' j' : nat) : bool :=
  (i' <? i)%nat
  || ((i' =? i)%nat && ((j' <? j)%nat || ((j' =? j)%nat && (o' <? t)%nat))).

(** What the fill writes: the calls of [rand()] alternate between A and B. *)
Definition mset (e : env) (n : nat) (o i j : nat) : Z :=
  match o with
  | 0%nat => Z.rem (rand_val e (2 * (i * n + j))%nat) 10
  | 1%nat => Z.rem (rand_val e (2 * (i * n + j) + 1)%nat) 10
  | _ => 0
  end.

Definition setup_inv (e : env) (n : nat) (i j ta tk : nat) (s : state) : Prop :=
  mallocs s = (3 + 3 * i + ta)%nat ∧
  rands s = (2 * (i * n + j) + Nat.min tk 2)%nat ∧
  clocks s = 0%nat ∧ stdout s = [] ∧
  shape (heap s) n (alloc_stage i ta) (known_stage i j tk) (mset e n).

(** Row [i] of [a] times column [j] of [b], cut after [k] terms. *)
Definition dot (a b : nat → nat → Z) (i j k : nat) : Z :=
  Zsum k (λ k', a i k' * b k' j).

(** The three matrices when the triple loop is at [(i, j, k)]: the entries
    of C before [(i, j)] are complete, [C[i][j]] holds [k] terms, the
    others are still zero. *)
Definition mult_stage (n : nat) (a b : nat → nat → Z) (i j k : nat)
    (o i' j' : nat) : Z :=
  match o with
  | 0%nat => a i' j'
  | 1%nat => b i' j'
  | _ =>
      if (i' <? i)%nat || ((i' =? i)%nat && (j' <? j)%nat) then dot a b i' j' n
      else if (i' =? i)%nat && (j' =? j)%nat then dot a b i' j' k
      else 0
  end.

Definition same_io (s s0 : state) : Prop :=
  mallocs s = mallocs s0 ∧ rands s = rands s0 ∧
  clocks s = clocks s0 ∧ stdout s = stdout s0.

Definition mult_inv (n : nat) (a b : nat → nat → Z) (s0 : state)
    (i j k : nat) (s : state) : Prop :=
  same_io s s0 ∧ matrices n s (mult_stage n a b i j k).

(** The contents of A, B and C when [main] returns. *)
Definition final (e : env) (n : nat) (o i j : nat) : Z :=
  mult_stage n (mset e n 0) (mset e n 1) n 0 0 o i j.

(** Nothing was timed or printed yet. *)
Definition quiet (s : state) : Prop := clocks s = 0%nat ∧ stdout s = [].

End task.

(** * Part II: properties *)

(** ** Checked arithmetic *)

Lemma signed_in w z : - 2 ^ (w - 1) ≤ z < 2 ^ (w - 1) → signed w z = Ret z.
Proof.
  intros [Hlo Hhi]. unfold signed.
  destruct (Z.leb_spec (- 2 ^ (w - 1)) z); [|lia].
  destruct (Z.ltb_spec z (2 ^ (w - 1))); [done|lia].
Qed.

Lemma signed_out w z : 2 ^ (w - 1) ≤ z → signed w z = Err SignedOverflow.
Proof.
  intros Hhi. unfold signed.
  destruct (Z.ltb_spec z (2 ^ (w - 1))); [lia|].
  by rewrite andb_false_r.
Qed.

Lemma llong_range z : - 2 ^ (64 - 1) ≤ z < 2 ^ (64 - 1) ↔ - 9223372036854775808 ≤ z ≤ LLONG_MAX.
Proof. unfold LLONG_MAX. lia. Qed.

Lemma int_range z : - 2 ^ (32 - 1) ≤ z < 2 ^ (32 - 1) ↔ - 2147483648 ≤ z ≤ INT_MAX.
Proof. unfold INT_MAX. lia. Qed.

(** ** Runs in the monad *)

Section MonadFacts.

Context {St : Type}.

Lemma bind_done {A B} (m : M St A) (k : A → M St B) s a s' :
  m s = Done a s' → (m ≫= k) s = k a s'.
Proof. intros E. unfold mbind, M_bind. by rewrite E. Qed.

Lemma bind_crash {A B} (m : M St A) (k : A → M St B) s f s' :
  m s = Crash f s' → (m ≫= k) s = Crash f s'.
Proof. intros E. unfold mbind, M_bind. by rewrite E. Qed.

(** A loop whose body keeps the invariant [I] runs to its end. *)
Lemma for_loop_inv (I : nat → St → Prop) (body : nat → M St ()) n :
  ∀ i0,
    (∀ k s, (i0 ≤ k < i0 + n)%nat → I k s →
       ∃ s', body k s = Done () s' ∧ I (S k) s') →
    ∀ s, I i0 s → ∃ s', for_loop n i0 body s = Done () s' ∧ I (i0 + n)%nat s'.
Proof.
  induction n as [|n IH]; intros i0 Hbody s Hs.
  - exists s. split; [done|]. by rewrite Nat.add_0_r.
  - destruct (Hbody i0 s ltac:(lia) Hs) as (s1 & E1 & Hs1).
    destruct (IH (S i0)) with (s := s1) as (s2 & E2 & Hs2); [|done|].
    { intros k s' Hk. apply Hbody. lia. }
    exists s2. split.
    + simpl. by rewrite (bind_done _ _ _ _ _ E1).
    + by replace (i0 + S n)%nat with (S i0 + n)%nat by lia.
Qed.

(** A loop whose iteration [c] crashes, the earlier ones keeping [I]. *)
Lemma for_loop_crash (I : nat → St → Prop) (Q : St → Prop)
    (body : nat → M St ()) f c n :
  ∀ i0,
    (i0 ≤ c < i0 + n)%nat →
    (∀ k s, (i0 ≤ k < c)%nat → I k s →
       ∃ s', body k s = Done () s' ∧ I (S k) s') →
    (∀ s, I c s → ∃ s', body c s = Crash f s' ∧ Q s') →
    ∀ s, I i0 s → ∃ s', for_loop n i0 body s = Crash f s' ∧ Q s'.
Proof.
  induction n as [|n IH]; intros i0 Hc Hbody Hcrash s Hs; [lia|].
  destruct (decide (i0 = c)) as [->|Hne].
  - destruct (Hcrash s Hs) as (s' & E & HQ). exists s'. split; [|done].
    simpl. by rewrite (bind_crash _ _ _ _ _ E).
  - destruct (Hbody i0 s ltac:(lia) Hs) as (s1 & E1 & Hs1).
    destruct (IH (S i0)) with (s := s1) as (s2 & E2 & Hs2); [lia| |done|done|].
    { intros k s' Hk. apply Hbody. lia. }
    exists s2. split; [|done]. simpl. by rewrite (bind_done _ _ _ _ _ E1).
Qed.

Lemma for_loop_first_crash (body : nat → M St ()) n i0 s f s' :
  (0 < n)%nat → body i0 s = Crash f s' → for_loop n i0 body s = Crash f s'.
Proof.
  intros Hn E. destruct n as [|n]; [lia|]. simpl. by rewrite (bind_crash _ _ _ _ _ E).
Qed.

End MonadFacts.

(** ** PrimeRangeCounter *)

Module PrimeRangeCounter.

Import task2.

(** *** Small inputs *)

Example is_prime_97 : is_prime 97 = Ret 1.
Proof. reflexivity. Qed.

Example is_prime_91 : is_prime 91 = Ret 0.
Proof. reflexivity. Qed.

Example is_prime_negative : is_prime (-5) = Ret 0.
Proof. reflexivity. Qed.

(** *** The loop of [is_prime] *)

Lemma is_prime_step_eq n i :
  2 ≤ i → i * i ≤ LLONG_MAX →
  is_prime_step n i =
    if i * i <=? n then
      if Z.rem n i =? 0 then Ret (Return 0) else Ret (Continue (i + 1))
    else Ret (Return 1).
Proof.
  intros Hi Hsq. unfold is_prime_step, llong_mul, llong_add.
  rewrite (signed_in 64 (i * i)) by (apply llong_range; nia). simpl.
  rewrite (signed_in 64 (i + 1)) by (apply llong_range; nia). done.
Qed.

Lemma is_prime_step_overflow n i :
  LLONG_MAX < i * i → is_prime_step n i = Err SignedOverflow.
Proof.
  intros Hsq. unfold is_prime_step, llong_mul.
  rewrite signed_out; [done|]. unfold LLONG_MAX in Hsq. lia.
Qed.

Lemma rem_zero_divide n i : i ≠ 0 → (Z.rem n i =? 0) = true ↔ (i | n).
Proof. intros Hi. rewrite Z.eqb_eq. by apply Z.rem_divide. Qed.

(** The loop stops at index [B] at the latest: either the guard fails
    there or [B] divides [n]. *)
Lemma is_prime_loop_spec B n :
  B * B ≤ LLONG_MAX → n < B * B ∨ (B | n) →
  ∀ fuel i,
    2 ≤ i ≤ B → (∀ j, 2 ≤ j < i → ¬ (j | n)) → B - i < Z.of_nat fuel →
    ∃ v, is_prime_loop fuel n i = Ret v ∧
         (v = 1 ∧ no_divisor_upto_sqrt n ∨
          v = 0 ∧ ∃ d, 2 ≤ d ∧ d * d ≤ n ∧ (d | n)).
Proof.
  intros HB Hstop. induction fuel as [|fuel IH]; intros i Hi Hnone Hfuel; [lia|].
  simpl. rewrite is_prime_step_eq by nia.
  destruct (Z.leb_spec (i * i) n) as [Hle|Hgt]; simpl.
  - destruct (Z.rem n i =? 0) eqn:Hrem; simpl.
    + exists 0. split; [done|]. right. split; [done|]. exists i.
      apply rem_zero_divide in Hrem; [|lia]. repeat split; [lia|lia|done].
    + assert (¬ (i | n)) as Hndiv.
      { intros Hd. apply rem_zero_divide in Hd; [congruence|lia]. }
      assert (i < B) as HiB.
      { destruct (decide (i = B)) as [->|]; [|lia]. destruct Hstop; [lia|done]. }
      apply IH; [lia| |lia].
      intros j Hj. destruct (decide (j = i)) as [->|]; [done|]. apply Hnone. lia.
  - exists 1. split; [done|]. left. split; [done|].
    intros j Hj Hjj. apply Hnone. nia.
Qed.

Lemma no_divisor_prime n : 2 ≤ n → no_divisor_upto_sqrt n → Z.prime n.
Proof.
  intros Hn Hnone. split; [lia|]. intros d Hd [e He].
  assert (2 ≤ e) by nia.
  destruct (Z.le_gt_cases (d * d) n).
  - apply (Hnone d); [lia|done|]. by exists e.
  - apply (Hnone e); [lia|nia|]. exists d. lia.
Qed.

Lemma divisor_not_prime n d : 2 ≤ d → d * d ≤ n → (d | n) → ¬ Z.prime n.
Proof. intros Hd Hdd Hdiv [_ Hp]. apply (Hp d); [nia|done]. Qed.

Lemma not_prime_divisor n :
  2 ≤ n → ¬ Z.prime n → ∃ d, 2 ≤ d ∧ d * d ≤ n ∧ (d | n).
Proof.
  intros Hn Hnp. rewrite prime_alt in Hnp.
  destruct (not_prime_divide n) as (d & Hd & [e He]); [lia|done|].
  assert (2 ≤ e) by nia.
  destruct (Z.le_gt_cases (d * d) n).
  - exists d. split; [lia|]. split; [done|]. by exists e.
  - exists e. split; [lia|]. split; [nia|]. exists d. lia.
Qed.

Lemma is_prime_spec n :
  n ≤ LLONG_MAX → n < overflow_bound ∨ ¬ Z.prime n →
  (Z.prime n ∧ is_prime n = Ret 1) ∨ (¬ Z.prime n ∧ is_prime n = Ret 0).
Proof.
  intros Hmax Hcase. unfold is_prime.
  destruct (Z.ltb_spec n 2) as [Hlt|Hge].
  { right. split; [|done]. intros [? _]. lia. }
  pose proof (Z.sqrt_spec n ltac:(lia)) as Hsqrt. unfold Z.succ in Hsqrt.
  assert (0 < Z.sqrt n) as Hpos by (apply Z.sqrt_pos; lia).
  assert (∃ B, 2 ≤ B ∧ B * B ≤ LLONG_MAX ∧ (n < B * B ∨ (B | n)) ∧ B ≤ Z.sqrt n + 1)
    as (B & HB2 & HBB & Hstop & HBs).
  { destruct Hcase as [Hlt|Hnp].
    - exists (Z.sqrt n + 1).
      assert (Z.sqrt n < 3037000499) as Hs.
      { apply Z.sqrt_lt_square; unfold overflow_bound in Hlt; lia. }
      unfold LLONG_MAX. split; [lia|]. split; [nia|]. split; [left; lia|lia].
    - destruct (not_prime_divisor n) as (d & Hd & Hdd & Hdiv); [done..|].
      exists d. split; [done|]. split; [lia|]. split; [by right|nia]. }
  destruct (is_prime_loop_spec B n HBB Hstop (Z.to_nat (Z.sqrt n)) 2)
    as (v & -> & Hv); [lia|intros; lia|lia|].
  destruct Hv as [[-> Hnone]|[-> (d & Hd & Hdd & Hdiv)]].
  - left. split; [|done]. by apply no_divisor_prime.
  - right. split; [|done]. by apply (divisor_not_prime n d).
Qed.

Lemma trial_division_spec n :
  trial_division n = true ↔ 2 ≤ n ∧ no_divisor_upto_sqrt n.
Proof.
  unfold trial_division. rewrite andb_true_iff, Z.leb_le, forallb_forall.
  split; intros [Hn H]; (split; [done|]).
  - intros i Hi Hii Hdiv.
    assert (i ≤ Z.sqrt n) as Hs by (apply Z.sqrt_le_square; lia).
    specialize (H i). rewrite negb_true_iff in H.
    rewrite <- list_elem_of_In, elem_of_seqZ in H. specialize (H ltac:(lia)).
    apply Z.eqb_neq in H. apply H, Z.rem_divide; [lia|done].
  - intros i [Hi Hs]%list_elem_of_In%elem_of_seqZ.
    apply negb_true_iff, Z.eqb_neq. intros Hrem%Z.rem_divide; [|lia].
    apply (H i); [lia| |done].
    pose proof (Z.sqrt_spec n ltac:(lia)) as [Hsq _]. nia.
Qed.

Lemma is_prime_step_continue n i i' :
  2 ≤ i → is_prime_step n i = Ret (Continue i') →
  i' = i + 1 ∧ i * i ≤ n ∧ i * i ≤ LLONG_MAX.
Proof.
  intros Hi E. destruct (Z.le_gt_cases (i * i) LLONG_MAX) as [Hle|Hgt].
  - rewrite is_prime_step_eq in E by done.
    destruct (Z.leb_spec (i * i) n); [|done].
    destruct (Z.rem n i =? 0); [done|]. split; [congruence|done].
  - by rewrite is_prime_step_overflow in E.
Qed.

Lemma visits_inv n i : visits n i → 2 ≤ i ∧ (i = 2 ∨ (i - 1) * (i - 1) ≤ n).
Proof.
  induction 1 as [|i i' _ [IH _] E]; [lia|].
  destruct (is_prime_step_continue n i i' IH E) as (-> & Hle & _).
  split; [lia|]. right. by replace (i + 1 - 1) with i by lia.
Qed.

(** *** Beyond [overflow_bound]

    For a prime [n] from [overflow_bound] on, the square of
    [i = 3037000500] is out of the range of [long long] before the guard
    can fail: the C standard does not define the call, and [is_prime]
    reports the overflow.  What a two's-complement machine does there is
    the subject of the next section. *)

Lemma is_prime_loop_overflow n :
  overflow_bound ≤ n → n ≤ LLONG_MAX →
  ∀ fuel i,
    2 ≤ i ≤ 3037000500 → (∀ j, i ≤ j ≤ 3037000499 → ¬ (j | n)) →
    3037000500 - i < Z.of_nat fuel →
    is_prime_loop fuel n i = Err SignedOverflow.
Proof.
  intros Hlo Hhi. induction fuel as [|fuel IH]; intros i Hi Hnone Hfuel; [lia|].
  simpl. destruct (decide (i = 3037000500)) as [->|Hne].
  { rewrite is_prime_step_overflow; [done|]. by vm_compute. }
  unfold overflow_bound, LLONG_MAX in *.
  rewrite is_prime_step_eq by (unfold LLONG_MAX; nia).
  destruct (Z.leb_spec (i * i) n) as [_|?]; [|nia].
  destruct (Z.rem n i =? 0) eqn:Hrem.
  { apply rem_zero_divide in Hrem; [|lia]. destruct (Hnone i); [lia|done]. }
  simpl. apply IH; [lia| |lia]. intros j Hj. apply Hnone. lia.
Qed.

Lemma is_prime_overflow n :
  overflow_bound ≤ n → n ≤ LLONG_MAX → Z.prime n →
  is_prime n = Err SignedOverflow.
Proof.
  intros Hlo Hhi [_ Hp]. unfold is_prime.
  destruct (Z.ltb_spec n 2) as [?|_]; [unfold overflow_bound in Hlo; lia|].
  assert (3037000499 ≤ Z.sqrt n) as Hs.
  { apply Z.sqrt_le_square; unfold overflow_bound in Hlo; lia. }
  apply is_prime_loop_overflow; [done|done|lia| |lia].
  intros j Hj. apply Hp. unfold overflow_bound in Hlo. lia.
Qed.

(** Every [long long] value is in one of three cases. *)
Lemma is_prime_outcomes n :
  n ≤ LLONG_MAX →
  (Z.prime n ∧ n < overflow_bound ∧ is_prime n = Ret 1) ∨
  (¬ Z.prime n ∧ is_prime n = Ret 0) ∨
  (Z.prime n ∧ overflow_bound ≤ n ∧ is_prime n = Err SignedOverflow).
Proof.
  intros Hmax. destruct (prime_dec n) as [Hp%prime_alt|Hnp].
  - destruct (Z.lt_ge_cases n overflow_bound) as [Hlt|Hge].
    + left. destruct (is_prime_spec n Hmax) as [[_ E]|[Hnp _]]; [by left|auto|].
      destruct (Hnp Hp).
    + right. right. split; [exact Hp|]. split; [done|]. by apply is_prime_overflow.
  - right. left. rewrite <- prime_alt in Hnp.
    destruct (is_prime_spec n Hmax) as [[Hp _]|[_ E]]; [by right| |auto].
    destruct (Hnp Hp).
Qed.

(** *** The loop in two's-complement arithmetic *)

(** At the first index whose square is out of range the wrapped product
    is negative, so the guard [i * i <= n] holds and the loop goes on. *)
Lemma guard_wraps_negative :
  llong_mul 3037000500 3037000500 = Err SignedOverflow ∧
  wrap 64 (3037000500 * 3037000500) = -9223372036709301616.
Proof. split; reflexivity. Qed.

Lemma wrap_in_range z : - 2 ^ 63 ≤ z < 2 ^ 63 → wrap 64 z = z.
Proof.
  intros Hz. unfold wrap. cbv zeta.
  change (2 ^ 64) with 18446744073709551616.
  change (2 ^ 63) with 9223372036854775808 in Hz.
  change (18446744073709551616 / 2) with 9223372036854775808.
  destruct (Z.ltb_spec (z mod 18446744073709551616) 9223372036854775808);
    Z.div_mod_to_equations; lia.
Qed.

(** Where no product leaves the range, the two loops do the same. *)
Lemma is_prime_step_wrapping_eq n i :
  2 ≤ i → i * i ≤ LLONG_MAX → is_prime_step_wrapping n i = is_prime_step n i.
Proof.
  intros Hi Hsq. rewrite is_prime_step_eq by assumption.
  unfold is_prime_step_wrapping, LLONG_MAX in *.
  rewrite !wrap_in_range by nia.
  destruct (Z.eqb_spec i 0) as [?|_]; [lia|reflexivity].
Qed.

Lemma is_prime_loop_wrapping_agrees n v :
  ∀ fuel i, 2 ≤ i →
    is_prime_loop fuel n i = Ret v → is_prime_loop_wrapping fuel n i = Ret v.
Proof.
  induction fuel as [|fuel IH]; intros i Hi E; [discriminate E|].
  simpl in *. destruct (Z.le_gt_cases (i * i) LLONG_MAX) as [Hle|Hgt].
  - rewrite is_prime_step_wrapping_eq by assumption.
    rewrite is_prime_step_eq in * by assumption.
    destruct (i * i <=? n); [|exact E].
    destruct (Z.rem n i =? 0); [exact E|]. simpl in *. apply IH; [lia|exact E].
  - rewrite is_prime_step_overflow in E by assumption. discriminate E.
Qed.

Lemma is_prime_loop_wrapping_mono n v :
  ∀ fuel fuel' i, (fuel ≤ fuel')%nat →
    is_prime_loop_wrapping fuel n i = Ret v →
    is_prime_loop_wrapping fuel' n i = Ret v.
Proof.
  induction fuel as [|fuel IH]; intros fuel' i Hle E; [discriminate E|].
  destruct fuel' as [|fuel']; [lia|]. simpl in *.
  destruct (is_prime_step_wrapping n i) as [[i'|w]|f]; simpl in *;
    [apply (IH fuel'); [lia|exact E]|exact E|exact E].
Qed.

Lemma returns_wrapping_intro fuel n v :
  is_prime_wrapping fuel n = Ret v → returns_wrapping n v.
Proof.
  intros E. exists fuel. intros fuel' Hle. unfold is_prime_wrapping in *.
  destruct (n <? 2); [exact E|]. exact (is_prime_loop_wrapping_mono n v _ _ _ Hle E).
Qed.

Lemma returns_wrapping_unique n v v' :
  returns_wrapping n v → returns_wrapping n v' → v = v'.
Proof.
  intros [f Hf] [f' Hf'].
  specialize (Hf (f `max` f')%nat ltac:(lia)).
  specialize (Hf' (f `max` f')%nat ltac:(lia)). congruence.
Qed.

(** Whenever [is_prime] returns, so does the wrapping run, with the same
    result and within the same [⌊√n⌋] guard evaluations. *)
Lemma is_prime_wrapping_agrees n v :
  is_prime n = Ret v → is_prime_wrapping (Z.to_nat (Z.sqrt n)) n = Ret v.
Proof.
  unfold is_prime, is_prime_wrapping. destruct (n <? 2); [done|].
  apply is_prime_loop_wrapping_agrees. lia.
Qed.

(** The guard fails at [E] at the latest, and a prime [n > E] has no
    divisor on the way. *)
Lemma is_prime_loop_wrapping_prime n E :
  Z.prime n → E < n → n ≤ LLONG_MAX → n < wrap 64 (E * E) →
  ∀ fuel i, 2 ≤ i ≤ E → E - i < Z.of_nat fuel →
    is_prime_loop_wrapping fuel n i = Ret 1.
Proof.
  intros [_ Hp] HE Hmax Hexit.
  induction fuel as [|fuel IH]; intros i Hi Hfuel; [lia|].
  simpl. unfold is_prime_step_wrapping.
  destruct (Z.leb_spec (wrap 64 (i * i)) n) as [Hle|Hgt]; [|reflexivity].
  assert (i ≠ E) as Hne by (intros ->; lia).
  destruct (Z.eqb_spec i 0) as [?|_]; [lia|].
  destruct (Z.rem n i =? 0) eqn:Hrem.
  { apply rem_zero_divide in Hrem; [|lia]. destruct (Hp i); [lia|exact Hrem]. }
  simpl. rewrite wrap_in_range by (unfold LLONG_MAX in Hmax; lia).
  apply IH; lia.
Qed.

Lemma last_exit_square : wrap 64 (last_exit * last_exit) = 2 ^ 63 - 7.
Proof. reflexivity. Qed.

(** The seven values from [2 ^ 63 - 7] to [2 ^ 63 - 1] are composite. *)
Lemma prime_below_last_square n : Z.prime n → n ≤ LLONG_MAX → n < 2 ^ 63 - 7.
Proof.
  intros [_ Hp] Hmax. destruct (Z.lt_ge_cases n (2 ^ 63 - 7)) as [Hlt|Hge]; [exact Hlt|].
  exfalso. unfold LLONG_MAX in Hmax.
  change (2 ^ 63) with 9223372036854775808 in *.
  assert (n = 9223372036854775801 ∨ n = 9223372036854775802 ∨
          n = 9223372036854775803 ∨ n = 9223372036854775804 ∨
          n = 9223372036854775805 ∨ n = 9223372036854775806 ∨
          n = 9223372036854775807) as Hn by lia.
  destruct Hn as [->|[->|[->|[->|[->|[->| ->]]]]]].
  - apply (Hp 157); [lia|]. by exists (9223372036854775801 / 157).
  - apply (Hp 2); [lia|]. by exists (9223372036854775802 / 2).
  - apply (Hp 3); [lia|]. by exists (9223372036854775803 / 3).
  - apply (Hp 2); [lia|]. by exists (9223372036854775804 / 2).
  - apply (Hp 5); [lia|]. by exists (9223372036854775805 / 5).
  - apply (Hp 2); [lia|]. by exists (9223372036854775806 / 2).
  - apply (Hp 7); [lia|]. by exists (9223372036854775807 / 7).
Qed.

(** The wrapping run returns on every [long long] value, 1 on the primes
    and 0 on the others. *)
Lemma is_prime_wrapping_spec n :
  n ≤ LLONG_MAX →
  (Z.prime n ∧ returns_wrapping n 1) ∨ (¬ Z.prime n ∧ returns_wrapping n 0).
Proof.
  intros Hmax.
  destruct (is_prime_outcomes n Hmax)
    as [(Hp & _ & E)|[(Hnp & E)|(Hp & Hge & _)]].
  - left. split; [exact Hp|].
    exact (returns_wrapping_intro _ _ _ (is_prime_wrapping_agrees n 1 E)).
  - right. split; [exact Hnp|].
    exact (returns_wrapping_intro _ _ _ (is_prime_wrapping_agrees n 0 E)).
  - left. split; [exact Hp|].
    pose proof (prime_below_last_square n Hp Hmax) as Hlt.
    apply (returns_wrapping_intro (Z.to_nat last_exit)).
    unfold is_prime_wrapping.
    destruct (Z.ltb_spec n 2) as [?|_]; [unfold overflow_bound in Hge; lia|].
    apply (is_prime_loop_wrapping_prime n last_exit Hp).
    + unfold overflow_bound, last_exit in *. lia.
    + exact Hmax.
    + rewrite last_exit_square. exact Hlt.
    + unfold last_exit. lia.
    + unfold last_exit. lia.
Qed.

(** *** A prime beyond [overflow_bound]

    [9223372033963200439 - 1 = 3037000721 * 3037000278] with [3037000721]
    prime, which makes Pocklington's criterion with the base [2]
    applicable. *)

Section Certificate.

Variables r b : Z.
Hypothesis Hr : 1 < r.

Lemma pow_mod_one x k : 0 ≤ k → x mod r = 1 → x ^ k mod r = 1.
Proof.
  intros Hk Hx. rewrite Zpower_mod by lia. rewrite Hx, Z.pow_1_l by done.
  apply Z.mod_small. lia.
Qed.

(** Exponents that send [b] to [1] are closed under Euclid's algorithm. *)
Lemma pow_mod_one_gcd (k : nat) :
  ∀ m n, 0 ≤ m < Z.of_nat k → 0 ≤ n →
    b ^ m mod r = 1 → b ^ n mod r = 1 → b ^ Z.gcd m n mod r = 1.
Proof.
  induction k as [|k IH]; intros m n Hm Hn Em En; [lia|].
  destruct (decide (m = 0)) as [->|Hm0].
  { rewrite Z.gcd_0_l, Z.abs_eq by done. done. }
  rewrite <- Z.gcd_mod_r, Z.gcd_comm.
  pose proof (Z.mod_pos_bound n m ltac:(lia)) as Hb.
  apply IH; [lia|lia| |done].
  assert (0 ≤ n / m) as Hdiv by (apply Z.div_pos; lia).
  rewrite (Z.div_mod n m) in En by done.
  rewrite Z.pow_add_r, Z.pow_mul_r in En by nia.
  rewrite <- Z.mul_mod_idemp_l, pow_mod_one, Z.mul_1_l in En by (done || lia).
  done.
Qed.

Variable q : Z.
Hypothesis Hq : Z.prime q.
Hypothesis Hbq : b ^ q mod r = 1.
Hypothesis Hb1 : b mod r ≠ 1.

Lemma pow_mod_apart i j : 0 ≤ i < j → j < q → b ^ i mod r ≠ b ^ j mod r.
Proof.
  intros Hi Hj E. apply Hb1.
  assert (b ^ (j - i) mod r = 1) as Ed.
  { assert (b ^ (j + (q - i)) mod r = 1) as E1.
    { rewrite Z.pow_add_r, <- Z.mul_mod_idemp_l, <- E, Z.mul_mod_idemp_l,
        <- Z.pow_add_r by lia.
      replace (i + (q - i)) with q by lia. done. }
    replace (j + (q - i)) with (j - i + q) in E1 by lia.
    rewrite Z.pow_add_r, <- Z.mul_mod_idemp_r, Hbq, Z.mul_1_r in E1 by lia. done. }
  assert (Z.gcd (j - i) q = 1) as Hg.
  { rewrite Z.gcd_comm. apply Z.coprime_prime_small; [done|lia]. }
  pose proof (pow_mod_one_gcd (Z.to_nat (j - i + 1)) (j - i) q
                ltac:(lia) ltac:(lia) Ed Hbq) as E1.
  by rewrite Hg, Z.pow_1_r in E1.
Qed.

(** The [q] powers [b^0, ..., b^(q-1)] are distinct residues modulo [r]. *)
Lemma order_le_modulus : q ≤ r.
Proof.
  set (f := λ i, b ^ i mod r).
  assert (NoDup (f <$> seqZ 0 q)) as Hnd.
  { apply NoDup_fmap_2_strong; [|apply NoDup_seqZ].
    intros x y Hx%elem_of_seqZ Hy%elem_of_seqZ Hf.
    destruct (Z.lt_trichotomy x y) as [Hlt|[->|Hlt]]; [|done|]; exfalso.
    - apply (pow_mod_apart x y); [lia|lia|done].
    - apply (pow_mod_apart y x); [lia|lia|done]. }
  assert (length (f <$> seqZ 0 q) ≤ length (seqZ 0 r))%nat as Hlen.
  { apply submseteq_length, NoDup_submseteq; [done|].
    intros x (i & -> & _)%list_elem_of_fmap. apply elem_of_seqZ.
    pose proof (Z.mod_pos_bound (b ^ i) r ltac:(lia)). unfold f. lia. }
  rewrite length_fmap, !length_seqZ in Hlen. lia.
Qed.

End Certificate.

(** Pocklington's criterion with a single prime [q]: every divisor of
    [P = q * R + 1] other than [1] is at least [q]. *)
Lemma large_divisors q R a P d :
  Z.prime q → 0 < R → P = q * R + 1 →
  a ^ (P - 1) mod P = 1 → Z.gcd (a ^ R mod P - 1) P = 1 →
  1 < d → (d | P) → q ≤ d.
Proof.
  intros Hq HR HP Ha Hg Hd Hdiv.
  pose proof (Z.prime_ge_2 q Hq) as Hq2.
  apply (order_le_modulus d (a ^ R) Hd q Hq).
  - rewrite <- Z.pow_mul_r by lia. replace (R * q) with (P - 1) by lia.
    rewrite <- (Z.mod_mod_divide _ P d) by done. rewrite Ha. apply Z.mod_small. lia.
  - intros E. assert (d | 1) as Hd1.
    { rewrite <- Hg. apply Z.gcd_greatest; [|done].
      apply Z.mod_divide; [lia|].
      rewrite <- Zminus_mod_idemp_l, Z.mod_mod_divide, E by done.
      rewrite Z.sub_diag. apply Z.mod_0_l. lia. }
    apply Z.divide_1_r_nonneg in Hd1; lia.
Qed.

Lemma prime_3037000721 : Z.prime 3037000721.
Proof.
  assert (is_prime 3037000721 = Ret 1) as E by (vm_compute; reflexivity).
  destruct (is_prime_spec 3037000721) as [[Hp _]|[_ E']]; [done|by left|done|].
  rewrite E in E'. discriminate.
Qed.

Lemma prime_9223372033963200439 : Z.prime 9223372033963200439.
Proof.
  assert (∀ d, 1 < d → (d | 9223372033963200439) → 3037000721 ≤ d) as Hlarge.
  { intros d. apply (large_divisors 3037000721 3037000278 2 9223372033963200439).
    - apply prime_3037000721.
    - done.
    - reflexivity.
    - rewrite <- Zpow_mod_correct by done. by vm_compute.
    - rewrite <- Zpow_mod_correct by done. by vm_compute. }
  split; [done|]. intros d Hd [c Hc].
  pose proof (Hlarge d ltac:(lia) ltac:(by exists c)) as Hd'.
  assert (1 < c) as Hc1 by nia.
  pose proof (Hlarge c Hc1 ltac:(exists d; lia)) as Hc'.
  nia.
Qed.

(** *** The counting loop *)

Lemma affirms_prime n : n < overflow_bound →
  (Z.prime n ∧ is_prime n = Ret 1 ∧ affirms n = true) ∨
  (¬ Z.prime n ∧ is_prime n = Ret 0 ∧ affirms n = false).
Proof.
  intros Hn. unfold affirms.
  destruct (is_prime_spec n) as [[Hp E]|[Hp E]];
    [unfold overflow_bound, LLONG_MAX in *; lia|by left|..]; rewrite E; auto.
Qed.

Lemma count_affirmed_cons n l :
  count_affirmed (n :: l) = (if affirms n then 1 else 0) + count_affirmed l.
Proof.
  unfold count_affirmed. rewrite filter_cons.
  destruct (affirms n); case_decide; simpl; try done; lia.
Qed.

Lemma main_loop_run fuel : ∀ i count s,
  start ≤ i ≤ end_ + 1 → 0 ≤ count ≤ i - start → end_ + 1 - i < Z.of_nat fuel →
  main_loop fuel i count s =
    Done (count + count_affirmed (seqZ i (end_ + 1 - i)))
         (State (clocks s) (stdout s) (probes s ++ seqZ i (end_ + 1 - i))).
Proof.
  induction fuel as [|fuel IH]; intros i count s Hi Hc Hfuel; [lia|].
  simpl. destruct (Z.leb_spec i end_) as [Hle|Hgt].
  - rewrite seqZ_cons by lia. rewrite count_affirmed_cons.
    replace (Z.succ i) with (i + 1) by lia.
    replace (Z.pred (end_ + 1 - i)) with (end_ + 1 - (i + 1)) by lia.
    assert (i < overflow_bound) as Hb by (unfold end_, overflow_bound in *; lia).
    assert (llong_add i 1 = Ret (i + 1)) as Einc.
    { apply signed_in, llong_range. unfold start, end_, LLONG_MAX in *. lia. }
    assert (int_add count 1 = Ret (count + 1)) as Eadd.
    { apply signed_in, int_range. unfold start, end_, INT_MAX in *. lia. }
    unfold mbind at 1, M_bind at 1, call_is_prime.
    destruct (affirms_prime i Hb) as [(_ & -> & ->)|(_ & -> & ->)]; simpl.
    + rewrite Eadd, Einc. simpl. unfold mbind, M_bind, mret, M_ret. simpl.
      rewrite IH by (simpl; lia). simpl. rewrite <- (assoc_L (++)). simpl.
      f_equal; lia.
    + rewrite Einc. simpl. unfold mbind, M_bind, mret, M_ret. simpl.
      rewrite IH by (simpl; lia). simpl. rewrite <- (assoc_L (++)). simpl.
      f_equal; lia.
  - rewrite seqZ_nil by lia. unfold count_affirmed. simpl.
    rewrite app_nil_r, Z.add_0_r. by destruct s.
Qed.

(** The run of [main]; [L] is the list of the candidates. *)
Lemma main_run clock_val :
  ∃ L, L = seqZ 90000000000 100001 ∧
    main clock_val init =
      Done 0 (State 2
        [Printf ("Found %d primes in %.3f seconds" ++ newline)
           [ArgInt (count_affirmed L);
            ArgDouble (ClockSeconds (clock_val (State 1 [] L) - clock_val init))]]
        L).
Proof.
  exists (seqZ start (end_ + 1 - start)). split.
  { unfold start, end_. replace (90000100000 + 1 - 90000000000) with 100001 by lia.
    reflexivity. }
  unfold main.
  rewrite (bind_done _ _ init (clock_val init) (State 1 [] [])) by done.
  erewrite bind_done; [|apply main_loop_run; unfold start, end_; lia].
  erewrite bind_done by reflexivity.
  erewrite bind_done by reflexivity.
  reflexivity.
Qed.

(** *** Claims *)

(** Where the C standard defines the call, that is for [n] below
    [3037000499 * 3037000499] or not prime, [is_prime] is trial division
    over the mathematical integers. *)
Lemma is_prime_defined n :
  n ≤ LLONG_MAX → n < overflow_bound ∨ ¬ Z.prime n →
  (n < 2 → is_prime n = Ret 0) ∧
  (2 ≤ n → (∃ i, 2 ≤ i ∧ i * i ≤ n ∧ Z.rem n i = 0) → is_prime n = Ret 0) ∧
  (2 ≤ n → no_divisor_upto_sqrt n → is_prime n = Ret 1) ∧
  is_prime n = Ret (if trial_division n then 1 else 0) ∧
  (is_prime n = Ret 1 ↔ Z.prime n) ∧
  (is_prime n = Ret 0 ↔ ¬ Z.prime n).
Proof.
  intros Hmax Hcase.
  assert (Z.prime n ↔ trial_division n = true) as Htd.
  { rewrite trial_division_spec. split.
    - intros Hp. split; [destruct Hp; lia|].
      intros i Hi Hii Hdiv. by destruct (divisor_not_prime n i).
    - intros [Hn Hnone]. by apply no_divisor_prime. }
  destruct (is_prime_spec n Hmax Hcase) as [[Hp E]|[Hnp E]]; rewrite E.
  - split_and!.
    + intros Hlt. destruct Hp. lia.
    + intros Hn (i & Hi & Hii & Hrem). destruct (divisor_not_prime n i); [done..| |done].
      apply Z.rem_divide; [lia|done].
    + done.
    + apply Htd in Hp. by rewrite Hp.
    + done.
    + split; [done|]. intros Hnp. by destruct Hnp.
  - split_and!.
    + done.
    + done.
    + intros Hn Hnone. destruct Hnp. by apply no_divisor_prime.
    + destruct (trial_division n); [|done]. destruct Hnp. by apply Htd.
    + split; [done|]. intros Hp. by destruct Hnp.
    + done.
Qed.

(** The same for the wrapping run, on every [long long] value. *)
Lemma is_prime_wrapping_defined n :
  n ≤ LLONG_MAX →
  (n < 2 → returns_wrapping n 0) ∧
  (2 ≤ n → (∃ i, 2 ≤ i ∧ i * i ≤ n ∧ Z.rem n i = 0) → returns_wrapping n 0) ∧
  (2 ≤ n → no_divisor_upto_sqrt n → returns_wrapping n 1) ∧
  returns_wrapping n (if trial_division n then 1 else 0) ∧
  (returns_wrapping n 1 ↔ Z.prime n) ∧
  (returns_wrapping n 0 ↔ ¬ Z.prime n).
Proof.
  intros Hmax.
  assert (Z.prime n ↔ trial_division n = true) as Htd.
  { rewrite trial_division_spec. split.
    - intros Hp. split; [destruct Hp; lia|].
      intros i Hi Hii Hdiv. by destruct (divisor_not_prime n i).
    - intros [Hn Hnone]. by apply no_divisor_prime. }
  destruct (is_prime_wrapping_spec n Hmax) as [[Hp R]|[Hnp R]].
  - split_and!.
    + intros Hlt. destruct Hp. lia.
    + intros Hn (i & Hi & Hii & Hrem). destruct (divisor_not_prime n i); [done..| |done].
      apply Z.rem_divide; [lia|done].
    + intros _ _. exact R.
    + apply Htd in Hp. rewrite Hp. exact R.
    + split; [intros _; exact Hp|intros _; exact R].
    + split; [|intros Hnp; destruct (Hnp Hp)].
      intros R0. pose proof (returns_wrapping_unique n 1 0 R R0). discriminate.
  - split_and!.
    + intros _. exact R.
    + intros _ _. exact R.
    + intros Hn Hnone. destruct Hnp. by apply no_divisor_prime.
    + destruct (trial_division n); [|exact R]. destruct Hnp. by apply Htd.
    + split; [|intros Hp; destruct (Hnp Hp)].
      intros R1. pose proof (returns_wrapping_unique n 1 0 R1 R). discriminate.
    + split; [intros _; exact Hnp|intros _; exact R].
Qed.

(** C2: for every [long long] value [n].  Where the C standard defines
    the call, that is for [n] below [3037000499 * 3037000499] or not
    prime, [is_prime] returns 0 when [n < 2]; for [n >= 2] it returns 0
    when some [i >= 2] with [i * i <= n] divides [n] exactly and 1 when
    there is none, which is the result of trial division over the
    mathematical integers; hence it returns 1 exactly when [n] is prime
    and 0 exactly when it is not.  Whatever [is_prime] returns is right,
    and is what the run in two's-complement arithmetic returns.  That
    run returns on every [n], and all of the above holds of it without
    the restriction on [n]. *)
Theorem is_prime_trial_division n :
  n ≤ LLONG_MAX →
  (n < overflow_bound ∨ ¬ Z.prime n →
     (n < 2 → is_prime n = Ret 0) ∧
     (2 ≤ n → (∃ i, 2 ≤ i ∧ i * i ≤ n ∧ Z.rem n i = 0) → is_prime n = Ret 0) ∧
     (2 ≤ n → no_divisor_upto_sqrt n → is_prime n = Ret 1) ∧
     is_prime n = Ret (if trial_division n then 1 else 0) ∧
     (is_prime n = Ret 1 ↔ Z.prime n) ∧
     (is_prime n = Ret 0 ↔ ¬ Z.prime n)) ∧
  (∀ v, is_prime n = Ret v →
     (v = 1 ↔ Z.prime n) ∧ (v = 0 ↔ ¬ Z.prime n) ∧ returns_wrapping n v) ∧
  (n < 2 → returns_wrapping n 0) ∧
  (2 ≤ n → (∃ i, 2 ≤ i ∧ i * i ≤ n ∧ Z.rem n i = 0) → returns_wrapping n 0) ∧
  (2 ≤ n → no_divisor_upto_sqrt n → returns_wrapping n 1) ∧
  returns_wrapping n (if trial_division n then 1 else 0) ∧
  (returns_wrapping n 1 ↔ Z.prime n) ∧
  (returns_wrapping n 0 ↔ ¬ Z.prime n).
Proof.
  intros Hmax. split; [exact (is_prime_defined n Hmax)|].
  split; [|exact (is_prime_wrapping_defined n Hmax)].
  intros v E.
  pose proof (returns_wrapping_intro _ _ _ (is_prime_wrapping_agrees n v E)) as R.
  destruct (is_prime_outcomes n Hmax)
    as [(Hp & _ & E')|[(Hnp & E')|(_ & _ & E')]]; rewrite E' in E.
  - injection E as <-. split; [|split; [|exact R]].
    + split; [intros _; exact Hp|reflexivity].
    + split; [discriminate|intros Hnp; destruct (Hnp Hp)].
  - injection E as <-. split; [|split; [|exact R]].
    + split; [discriminate|intros Hp; destruct (Hnp Hp)].
    + split; [intros _; exact Hnp|reflexivity].
  - discriminate E.
Qed.

Lemma is_prime_trial_division_witness :
  (is_prime 97 = Ret 1 ↔ Z.prime 97) ∧ (returns_wrapping 97 1 ↔ Z.prime 97).
Proof.
  destruct (is_prime_trial_division 97) as (Hc & _ & _ & _ & _ & _ & Hw & _).
  { unfold LLONG_MAX. lia. }
  destruct Hc as (_ & _ & _ & _ & Hi & _).
  { left. unfold overflow_bound. lia. }
  exact (conj Hi Hw).
Defined.

(** The prime [9223372033963200439] is beyond [overflow_bound]: the C
    standard does not define [is_prime] on it, since the square of
    [i = 3037000500] is out of range; in two's-complement arithmetic the
    guard fails at [i = 21688521708] at the latest and the run returns
    1. *)
Example is_prime_wrapping_large_prime :
  Z.prime 9223372033963200439 ∧
  overflow_bound ≤ 9223372033963200439 ≤ LLONG_MAX ∧
  is_prime 9223372033963200439 = Err SignedOverflow ∧
  9223372033963200439 < wrap 64 (21688521708 * 21688521708) ∧
  is_prime_wrapping (Z.to_nat 21688521707) 9223372033963200439 = Ret 1.
Proof.
  pose proof prime_9223372033963200439 as Hp.
  split; [exact Hp|]. split; [split; discriminate|].
  split; [apply is_prime_overflow; [discriminate|discriminate|exact Hp]|].
  split; [reflexivity|].
  unfold is_prime_wrapping.
  destruct (Z.ltb_spec 9223372033963200439 2) as [?|_]; [lia|].
  apply (is_prime_loop_wrapping_prime _ 21688521708 Hp);
    [lia|discriminate|reflexivity|lia|lia].
Qed.

(** C5: [is_prime(1)] and [is_prime(4)] return 0 (false), [is_prime(2)]
    and [is_prime(3)] return 1 (true). *)
Theorem is_prime_known_values :
  is_prime 1 = Ret 0 ∧ is_prime 2 = Ret 1 ∧
  is_prime 3 = Ret 1 ∧ is_prime 4 = Ret 0.
Proof. split_and!; reflexivity. Qed.

(** C10: for every [n <= 90000100000], [is_prime n] returns (0 or 1)
    within the [⌊√n⌋] guard evaluations of its fuel; every index [i] at
    which the guard is evaluated satisfies [2 <= i <= 300001] and, for
    [n >= 2], [i <= ⌊√n⌋ + 1]; the product [i * i] is computed without
    overflow; and the loop moves from [i] to [i + 1] only. *)
Theorem is_prime_terminates n :
  n ≤ 90000100000 →
  (is_prime n = Ret 0 ∨ is_prime n = Ret 1) ∧
  ∀ i, visits n i →
    2 ≤ i ≤ 300001 ∧
    (2 ≤ n → i ≤ Z.sqrt n + 1) ∧
    llong_mul i i = Ret (i * i) ∧
    ∀ i', is_prime_step n i = Ret (Continue i') → i' = i + 1.
Proof.
  intros Hn. split.
  { destruct (is_prime_spec n) as [[_ E]|[_ E]]; auto.
    - unfold LLONG_MAX. lia.
    - left. unfold overflow_bound. lia. }
  intros i Hv. destruct (visits_inv n i Hv) as [Hi Hsq].
  assert (i ≤ 300001) as Hmax by nia.
  split; [done|]. split; [|split].
  - intros Hn2. destruct Hsq as [->|Hsq].
    + assert (0 < Z.sqrt n) by (apply Z.sqrt_pos; lia). lia.
    + assert (i - 1 ≤ Z.sqrt n); [|lia]. apply Z.sqrt_le_square; lia.
  - apply signed_in, llong_range. unfold LLONG_MAX. nia.
  - intros i' E. by destruct (is_prime_step_continue n i i' Hi E).
Qed.

Lemma is_prime_terminates_witness :
  is_prime 90000100000 = Ret 0 ∨ is_prime 90000100000 = Ret 1.
Proof. apply (is_prime_terminates 90000100000). lia. Defined.

(** C4: [main] calls [is_prime] on 90000000000, 90000000001, ...,
    90000100000, in this order and once each, both ends included, and the
    count it prints is the number of these candidates for which the test
    holds; on this range the test holds exactly for the primes. *)
Theorem main_counts_range (clock_val : state → Z) :
  ∃ s count,
    main clock_val init = Done 0 s ∧
    probes s = seqZ 90000000000 100001 ∧
    (∀ k n, probes s !! k = Some n ↔
            n = 90000000000 + Z.of_nat k ∧ Z.of_nat k < 100001) ∧
    90000000000 ∈ probes s ∧ 90000100000 ∈ probes s ∧
    printed_count s = Some count ∧
    count = Z.of_nat (length (filter (λ n, affirms n = true) (probes s))) ∧
    ∀ n, n ∈ probes s → (affirms n = true ↔ Z.prime n).
Proof.
  destruct (main_run clock_val) as (L & HL & E).
  eexists _, (count_affirmed L). split; [exact E|].
  cbn [probes stdout printed_count]. split; [exact HL|].
  split_and!; [| | |reflexivity|reflexivity|].
  - intros k n. rewrite HL. apply lookup_seqZ.
  - rewrite HL. apply elem_of_seqZ. lia.
  - rewrite HL. apply elem_of_seqZ. lia.
  - intros n Hn. rewrite HL in Hn. apply elem_of_seqZ in Hn.
    destruct (affirms_prime n) as [(Hp & _ & ->)|(Hp & _ & ->)].
    + unfold overflow_bound. lia.
    + split; [intros _; exact Hp|reflexivity].
    + split; [discriminate|]. intros Hp'. destruct (Hp Hp').
Qed.

(** C7: the count printed by [main] does not depend on the run: whatever
    the clock returns, the same calls of [is_prime] are made and the same
    count is printed. *)
Theorem count_deterministic (clock_val1 clock_val2 : state → Z) :
  ∃ s1 s2 count,
    main clock_val1 init = Done 0 s1 ∧
    main clock_val2 init = Done 0 s2 ∧
    printed_count s1 = Some count ∧ printed_count s2 = Some count ∧
    probes s1 = probes s2.
Proof.
  destruct (main_run clock_val1) as (L1 & HL1 & E1).
  destruct (main_run clock_val2) as (L2 & HL2 & E2).
  assert (L2 = L1) as -> by congruence. clear HL1 HL2.
  eexists _, _, (count_affirmed L1).
  split; [exact E1|]. split; [exact E2|]. split_and!; reflexivity.
Qed.

(** *** Further properties of [is_prime] *)

(** The loop goes on from [i] exactly when [i * i <= n] is computed in
    range and [i] does not divide [n]. *)
Lemma is_prime_step_goes_on n i :
  2 ≤ i →
  is_prime_step n i = Ret (Continue (i + 1)) ↔
  i * i ≤ LLONG_MAX ∧ i * i ≤ n ∧ ¬ (i | n).
Proof.
  intros Hi. split.
  - intros E. destruct (Z.le_gt_cases (i * i) LLONG_MAX) as [Hle|Hgt].
    + rewrite is_prime_step_eq in E by assumption.
      destruct (Z.leb_spec (i * i) n) as [Hn|Hn]; [|discriminate].
      destruct (Z.rem n i =? 0) eqn:Hrem; [discriminate|].
      split; [exact Hle|]. split; [exact Hn|].
      intros Hd. apply rem_zero_divide in Hd; [congruence|lia].
    + rewrite is_prime_step_overflow in E by assumption. discriminate.
  - intros (Hle & Hn & Hd). rewrite is_prime_step_eq by assumption.
    destruct (Z.leb_spec (i * i) n) as [_|?]; [|lia].
    destruct (Z.rem n i =? 0) eqn:Hrem; [|reflexivity].
    apply rem_zero_divide in Hrem; [|lia]. destruct (Hd Hrem).
Qed.

(** The guard is evaluated at [i] exactly when every smaller index has
    passed it without dividing [n]. *)
Lemma visits_iff n i :
  n ≤ LLONG_MAX →
  visits n i ↔ 2 ≤ i ∧ ∀ j, 2 ≤ j < i → j * j ≤ n ∧ ¬ (j | n).
Proof.
  intros Hmax. split.
  - induction 1 as [|i i' _ [Hi IH] E]; [split; [lia|intros; lia]|].
    destruct (is_prime_step_continue n i i' Hi E) as (-> & _ & _).
    apply is_prime_step_goes_on in E; [|exact Hi]. destruct E as (_ & Hn & Hd).
    split; [lia|]. intros j Hj.
    destruct (Z.eq_dec j i) as [->|Hne]; [split; assumption|]. apply IH. lia.
  - intros [Hi Hall].
    assert (∀ k : nat, ∀ i, i = 2 + Z.of_nat k →
              (∀ j, 2 ≤ j < i → j * j ≤ n ∧ ¬ (j | n)) → visits n i) as Hind.
    { clear i Hi Hall. induction k as [|k IH]; intros i -> Hall.
      - apply visits_first.
      - replace (2 + Z.of_nat (S k)) with (2 + Z.of_nat k + 1) by lia.
        apply (visits_next n (2 + Z.of_nat k)).
        + apply IH; [reflexivity|]. intros j Hj. apply Hall. lia.
        + destruct (Hall (2 + Z.of_nat k) ltac:(lia)) as [Hn Hd].
          apply is_prime_step_goes_on; [lia|]. split; [lia|]. split; assumption. }
    apply (Hind (Z.to_nat (i - 2))); [lia|exact Hall].
Qed.







(** X7: a value [n] whose least divisor [d >= 2] satisfies [d * d <= n]
    is rejected at [d]: the guard is evaluated at 2, 3, ..., [d] and
    nowhere else, so an even [n >= 4] costs one evaluation. *)
Theorem composite_stops_at_least_divisor n d :
  n ≤ LLONG_MAX → 2 ≤ d → d * d ≤ n → (d | n) →
  (∀ j, 2 ≤ j < d → ¬ (j | n)) →
  is_prime n = Ret 0 ∧ ∀ i, visits n i ↔ 2 ≤ i ≤ d.
Proof.
  intros Hmax Hd Hdd Hdiv Hleast. split.
  - destruct (is_prime_spec n Hmax) as [[Hp _]|[_ E]]; [|
      destruct (divisor_not_prime n d Hd Hdd Hdiv Hp)|exact E].
    right. apply (divisor_not_prime n d); assumption.
  - intros i. rewrite visits_iff by exact Hmax. split.
    + intros [Hi Hall]. split; [exact Hi|].
      destruct (Z.le_gt_cases i d) as [Hle|Hgt]; [exact Hle|].
      destruct (Hall d ltac:(lia)) as [_ Hnd]. destruct (Hnd Hdiv).
    + intros [Hi Hid]. split; [exact Hi|]. intros j Hj.
      split; [nia|]. apply Hleast. lia.
Qed.

Lemma composite_stops_at_least_divisor_witness :
  is_prime 90000000000 = Ret 0 ∧ ∀ i, visits 90000000000 i ↔ 2 ≤ i ≤ 2.
Proof.
  apply (composite_stops_at_least_divisor 90000000000 2).
  - unfold LLONG_MAX. lia.
  - lia.
  - lia.
  - exists 45000000000. reflexivity.
  - intros j Hj. lia.
Defined.

(** X8: for a prime [n] below [3037000499 * 3037000499] the guard is
    evaluated at every index 2, 3, ..., [⌊√n⌋ + 1] before 1 is returned:
    there is no shortcut, whatever the prime. *)
Theorem prime_tries_every_index n :
  Z.prime n → n < overflow_bound →
  is_prime n = Ret 1 ∧ ∀ i, visits n i ↔ 2 ≤ i ≤ Z.sqrt n + 1.
Proof.
  intros Hp Hlt.
  assert (n ≤ LLONG_MAX) as Hmax by (unfold overflow_bound, LLONG_MAX in *; lia).
  assert (2 ≤ n) as Hn by (destruct Hp; lia).
  split.
  - destruct (is_prime_spec n Hmax) as [[_ E]|[Hnp _]]; [left; exact Hlt|exact E|].
    destruct (Hnp Hp).
  - intros i. rewrite visits_iff by exact Hmax.
    pose proof (Z.sqrt_spec n ltac:(lia)) as [Hlo Hhi]. unfold Z.succ in Hhi.
    pose proof (Z.sqrt_nonneg n) as Hs.
    split.
    + intros [Hi Hall]. split; [exact Hi|].
      destruct (Z.le_gt_cases i (Z.sqrt n + 1)) as [Hle|Hgt]; [exact Hle|].
      destruct (Hall (Z.sqrt n + 1) ltac:(lia)) as [Hsq _]. lia.
    + intros [Hi His]. split; [exact Hi|]. intros j Hj.
      assert (j * j ≤ n) as Hjj by nia. split; [exact Hjj|].
      intros Hdiv. apply (divisor_not_prime n j); [lia|exact Hjj|exact Hdiv|exact Hp].
Qed.

Lemma prime_tries_every_index_witness :
  is_prime 97 = Ret 1 ∧ ∀ i, visits 97 i ↔ 2 ≤ i ≤ Z.sqrt 97 + 1.
Proof.
  apply (prime_tries_every_index 97).
  - destruct (is_prime_spec 97) as [[Hp _]|[_ E]].
    + unfold LLONG_MAX. lia.
    + left. unfold overflow_bound. lia.
    + exact Hp.
    + discriminate E.
  - unfold overflow_bound. lia.
Defined.

(** X9: the guard [i * i <= n] holds at equality, so the square of any
    [p >= 2] that fits in [long long] is rejected, at the latest when
    the index reaches [p]. *)
Theorem is_prime_rejects_squares p :
  2 ≤ p → p * p ≤ LLONG_MAX →
  is_prime (p * p) = Ret 0 ∧ ∀ i, visits (p * p) i → i ≤ p.
Proof.
  intros Hp Hmax. split.
  - destruct (is_prime_spec (p * p) Hmax) as [[Hpr _]|[_ E]]; [| |exact E].
    + right. apply Z.not_prime_square.
    + destruct (Z.not_prime_square p Hpr).
  - intros i Hv. apply visits_iff in Hv; [|exact Hmax]. destruct Hv as [Hi Hall].
    destruct (Z.le_gt_cases i p) as [Hle|Hgt]; [exact Hle|].
    destruct (Hall p ltac:(lia)) as [_ Hnd]. destruct Hnd. exists p. reflexivity.
Qed.

Lemma is_prime_rejects_squares_witness : is_prime (3 * 3) = Ret 0.
Proof. apply (is_prime_rejects_squares 3); unfold LLONG_MAX; lia. Defined.

End PrimeRangeCounter.

(** ** MatrixMultiplyBenchmark *)

Module MatrixMultiplyBenchmark.

Import task.

Ltac bool_lia :=
  repeat match goal with
    | H : _ ∧ _ |- _ => destruct H
    end;
  repeat progress
    rewrite ?orb_true_iff, ?andb_true_iff, ?orb_false_iff, ?andb_false_iff,
      ?Nat.ltb_lt, ?Nat.eqb_eq, ?Nat.ltb_ge, ?Nat.eqb_neq in *;
  lia.

Ltac bool_cases :=
  repeat match goal with
    | |- context [(?x <? ?y)%nat] => destruct (Nat.ltb_spec x y)
    | |- context [(?x =? ?y)%nat] => destruct (Nat.eqb_spec x y)
    end; simpl; try done; try lia.

Ltac other_block := unfold row_block in *; lia.

(** *** The 2 x 2 example of the specification *)

Example product_2x2 :
  final_cell (main_n example_env 2 init) (VPtr 0) 1 0 = Some 3 ∧
  final_cell (main_n example_env 2 init) (VPtr 1) 1 0 = Some 7 ∧
  final_cell (main_n example_env 2 init) (VPtr 2) 0 0 = Some 19 ∧
  final_cell (main_n example_env 2 init) (VPtr 2) 0 1 = Some 22 ∧
  final_cell (main_n example_env 2 init) (VPtr 2) 1 0 = Some 43 ∧
  final_cell (main_n example_env 2 init) (VPtr 2) 1 1 = Some 50.
Proof. split_and!; by vm_compute. Qed.

(** *** The layout of the heap *)

Section Shape.

Variable n : nat.
Implicit Types (h : gmap nat (list val)) (o i j : nat).

Lemma row_block_inj o i o' i' :
  (o < 3)%nat → (o' < 3)%nat → row_block o i = row_block o' i' → o = o' ∧ i = i'.
Proof. unfold row_block. lia. Qed.

Lemma row_block_spine o i o' : (o' < 3)%nat → row_block o i ≠ o'.
Proof. unfold row_block. lia. Qed.

Lemma shape_ext h alloc known m alloc' known' m' :
  (∀ o i, (o < 3)%nat → (i < n)%nat → alloc' o i = true → alloc o i = true) →
  (∀ o i j, (o < 3)%nat → (i < n)%nat → (j < n)%nat →
     alloc' o i = true → known' o i j = true →
     known o i j = true ∧ m' o i j = m o i j) →
  shape h n alloc known m → shape h n alloc' known' m'.
Proof.
  intros Ha Hk Hs o Ho. destruct (Hs o Ho) as [(cells & Hc & Hlen & Hsp) Hrows].
  split.
  - exists cells. split_and!; [done..|]. intros i Hi Hal. apply Hsp; auto.
  - intros i Hi Hal. destruct (Hrows i Hi) as (row & Hr & Hrl & Hcells); [auto|].
    exists row. split_and!; [done..|]. intros j Hj Hkn.
    destruct (Hk o i j) as [Hkn' ->]; auto.
Qed.

Lemma shape_spine h alloc known m o i :
  shape h n alloc known m → (o < 3)%nat → (i < n)%nat → alloc o i = true →
  ∃ cells, h !! o = Some cells ∧ length cells = n ∧
           cells !! i = Some (VPtr (row_block o i)).
Proof.
  intros Hs Ho Hi Hal. destruct (Hs o Ho) as [(cells & Hc & Hlen & Hsp) _].
  exists cells. auto.
Qed.

Lemma shape_spine_block h alloc known m o :
  shape h n alloc known m → (o < 3)%nat →
  ∃ cells, h !! o = Some cells ∧ length cells = n.
Proof.
  intros Hs Ho. destruct (Hs o Ho) as [(cells & Hc & Hlen & _) _]. eauto.
Qed.

Lemma shape_row h alloc known m o i :
  shape h n alloc known m → (o < 3)%nat → (i < n)%nat → alloc o i = true →
  ∃ row, h !! row_block o i = Some row ∧ length row = n ∧
    ∀ j, (j < n)%nat → known o i j = true → row !! j = Some (VInt (m o i j)).
Proof. intros Hs Ho Hi Hal. destruct (Hs o Ho) as [_ Hrows]. auto. Qed.

(** A new row: [p[i] = malloc(...)] for the array of row pointers [o]. *)
Lemma shape_alloc h alloc known m o i cells alloc' :
  shape h n alloc known m → (o < 3)%nat → (i < n)%nat →
  h !! o = Some cells →
  (∀ j, (j < n)%nat → known o i j = false) →
  (∀ o' i', alloc' o' i' = true → (o' = o ∧ i' = i) ∨ alloc o' i' = true) →
  shape (<[o := <[i := VPtr (row_block o i)]> cells]>
           (<[row_block o i := replicate n VUndef]> h)) n alloc' known m.
Proof.
  intros Hs Ho Hi Hc Hnew Hal' o' Ho'.
  destruct (Hs o' Ho') as [(cells' & Hc' & Hlen' & Hsp) Hrows]. split.
  - destruct (decide (o' = o)) as [->|Hne].
    + rewrite lookup_insert_eq. assert (cells' = cells) as -> by congruence.
      exists (<[i := VPtr (row_block o i)]> cells).
      split_and!; [done|by rewrite length_insert|]. intros i' Hi' Ha.
      destruct (decide (i' = i)) as [->|Hni].
      * by rewrite list_lookup_insert_eq by lia.
      * rewrite list_lookup_insert_ne by done. apply Hsp; [done|].
        destruct (Hal' o i' Ha) as [[_ ?]|?]; done.
    + rewrite lookup_insert_ne by done.
      rewrite lookup_insert_ne by (by apply row_block_spine).
      exists cells'. split_and!; [done..|]. intros i' Hi' Ha. apply Hsp; [done|].
      destruct (Hal' o' i' Ha) as [[? _]|?]; done.
  - intros i' Hi' Ha.
    rewrite lookup_insert_ne by (apply not_eq_sym; by apply row_block_spine).
    destruct (decide (o' = o ∧ i' = i)) as [[-> ->]|Hne].
    + rewrite lookup_insert_eq. exists (replicate n VUndef).
      split_and!; [done|by rewrite length_replicate|].
      intros j Hj Hk. by rewrite Hnew in Hk.
    + rewrite lookup_insert_ne.
      * apply Hrows; [done|]. destruct (Hal' o' i' Ha); [done|done].
      * intros Heq. apply Hne. destruct (row_block_inj _ _ _ _ Ho Ho' Heq). lia.
Qed.

(** [p[i][j] = v] for the matrix [o]. *)
Lemma shape_store h alloc known m o i j row v known' m' :
  shape h n alloc known m → (o < 3)%nat → (i < n)%nat → (j < n)%nat →
  h !! row_block o i = Some row → length row = n →
  (∀ o' i' j', (o' < 3)%nat → (i' < n)%nat → (j' < n)%nat →
     alloc o' i' = true → known' o' i' j' = true →
     if decide (o' = o ∧ i' = i ∧ j' = j) then m' o' i' j' = v
     else known o' i' j' = true ∧ m' o' i' j' = m o' i' j') →
  shape (<[row_block o i := <[j := VInt v]> row]> h) n alloc known' m'.
Proof.
  intros Hs Ho Hi Hj Hr Hrl Hk o' Ho'.
  destruct (Hs o' Ho') as [(cells' & Hc' & Hlen' & Hsp) Hrows]. split.
  - rewrite lookup_insert_ne by (by apply row_block_spine). eauto.
  - intros i' Hi' Ha. destruct (decide (o' = o ∧ i' = i)) as [[-> ->]|Hne].
    + rewrite lookup_insert_eq. exists (<[j := VInt v]> row).
      split_and!; [done|by rewrite length_insert|]. intros j' Hj' Hkn.
      specialize (Hk o i j' Ho Hi Hj' Ha Hkn).
      destruct (Hrows i Hi Ha) as (row' & Hr' & _ & Hcells).
      assert (row' = row) as -> by congruence.
      destruct (decide (j' = j)) as [->|Hnj].
      * rewrite decide_True in Hk by done.
        rewrite list_lookup_insert_eq by lia. by rewrite Hk.
      * rewrite decide_False in Hk by lia. destruct Hk as [Hk ->].
        rewrite list_lookup_insert_ne by done. by apply Hcells.
    + rewrite lookup_insert_ne.
      2: { intros Heq. apply Hne. destruct (row_block_inj _ _ _ _ Ho Ho' Heq). lia. }
      destruct (Hrows i' Hi' Ha) as (row' & Hr' & Hrl' & Hcells).
      exists row'. split_and!; [done..|]. intros j' Hj' Hkn.
      specialize (Hk o' i' j' Ho' Hi' Hj' Ha Hkn).
      rewrite decide_False in Hk by lia. destruct Hk as [Hk ->].
      by apply Hcells.
Qed.

End Shape.

Lemma matrices_cell n s m o i j :
  matrices n s m → (o < 3)%nat → (i < n)%nat → (j < n)%nat →
  cell s (VPtr o) i j = Some (m o i j).
Proof.
  intros Hs Ho Hi Hj.
  destruct (shape_spine n _ _ _ _ o i Hs) as (cells & Hc & _ & Hci); [done..|].
  destruct (shape_row n _ _ _ _ o i Hs) as (row & Hr & _ & Hrj); [done..|].
  unfold cell. rewrite Hc. simpl. rewrite Hci. simpl. rewrite Hr. simpl.
  by rewrite (Hrj j Hj eq_refl).
Qed.

Lemma cell_heap s s' p i j : heap s' = heap s → cell s' p i j = cell s p i j.
Proof. intros E. unfold cell. by rewrite E. Qed.

(** *** Memory operations *)

Section Memory.

Variable e : env.

Lemma malloc_success cells s :
  malloc_ok e (mallocs s) = true →
  malloc e cells s =
    Done (VPtr (mallocs s))
         (State (<[mallocs s := replicate cells VUndef]> (heap s))
                (S (mallocs s)) (rands s) (clocks s) (stdout s)).
Proof. intros E. unfold malloc. by rewrite E. Qed.

Lemma malloc_failure cells s :
  malloc_ok e (mallocs s) = false →
  malloc e cells s =
    Done VNull (State (heap s) (S (mallocs s)) (rands s) (clocks s) (stdout s)).
Proof. intros E. unfold malloc. by rewrite E. Qed.

Lemma load_ptr s b cells i v :
  heap s !! b = Some cells → cells !! i = Some v → load (VPtr b) i s = Done v s.
Proof. intros Hb Hi. unfold load. by rewrite Hb, Hi. Qed.

Lemma store_ptr s b cells i v :
  heap s !! b = Some cells → (i < length cells)%nat →
  store (VPtr b) i v s = Done () (set_heap s (<[b := <[i := v]> cells]> (heap s))).
Proof. intros Hb Hi. unfold store. rewrite Hb. by rewrite decide_True. Qed.

Lemma load_int s b cells i z :
  heap s !! b = Some cells → cells !! i = Some (VInt z) →
  (load (VPtr b) i ≫= as_int) s = Done z s.
Proof. intros Hb Hi. by rewrite (bind_done _ _ _ _ _ (load_ptr s b cells i _ Hb Hi)). Qed.

End Memory.

(** *** Allocation and fill *)

Section Setup.

Variables (e : env) (n : nat).

Local Abbreviation mset := (task.mset e n).
Local Abbreviation setup_inv := (task.setup_inv e n).
Local Abbreviation matrices := (task.matrices n).

Lemma alloc_row o i s alloc known m alloc' :
  shape (heap s) n alloc known m → (o < 3)%nat → (i < n)%nat →
  mallocs s = row_block o i → malloc_ok e (row_block o i) = true →
  (∀ j, (j < n)%nat → known o i j = false) →
  (∀ o' i', alloc' o' i' = true → (o' = o ∧ i' = i) ∨ alloc o' i' = true) →
  ∃ s', (∀ B (k : () → M state B),
           (a ← malloc e n; store (VPtr o) i a ≫= k) s = k () s') ∧
        mallocs s' = S (mallocs s) ∧ rands s' = rands s ∧
        clocks s' = clocks s ∧ stdout s' = stdout s ∧
        shape (heap s') n alloc' known m.
Proof.
  intros Hs Ho Hi Hm Hok Hnew Hal.
  destruct (shape_spine_block n _ _ _ _ o Hs Ho) as (cells & Hc & Hlen).
  eexists. split.
  - intros B k.
    rewrite (bind_done _ _ _ _ _ (malloc_success e n s ltac:(by rewrite Hm))).
    erewrite bind_done; [done|]. apply (store_ptr _ _ cells); [|lia].
    simpl. rewrite lookup_insert_ne; [done|]. rewrite Hm. by apply row_block_spine.
  - simpl. split_and!; [done..|]. rewrite Hm. by apply (shape_alloc n _ alloc known m).
Qed.

Lemma fill_rand o i j s alloc known m known' m' :
  shape (heap s) n alloc known m →
  (o < 3)%nat → (i < n)%nat → (j < n)%nat → alloc o i = true →
  (∀ o' i' j', (o' < 3)%nat → (i' < n)%nat → (j' < n)%nat →
     alloc o' i' = true → known' o' i' j' = true →
     if decide (o' = o ∧ i' = i ∧ j' = j)
     then m' o' i' j' = Z.rem (rand_val e (rands s)) 10
     else known o' i' j' = true ∧ m' o' i' j' = m o' i' j') →
  ∃ s', (∀ B (k : () → M state B),
           (pa ← load (VPtr o) i; r ← rand e;
            store pa j (VInt (Z.rem r 10)) ≫= k) s = k () s') ∧
        mallocs s' = mallocs s ∧ rands s' = S (rands s) ∧
        clocks s' = clocks s ∧ stdout s' = stdout s ∧
        shape (heap s') n alloc known' m'.
Proof.
  intros Hs Ho Hi Hj Hal Hk.
  destruct (shape_spine n _ _ _ _ o i Hs Ho Hi Hal) as (cells & Hc & Hlen & Hci).
  destruct (shape_row n _ _ _ _ o i Hs Ho Hi Hal) as (row & Hr & Hrl & _).
  eexists. split.
  - intros B k. rewrite (bind_done _ _ _ _ _ (load_ptr s o cells i _ Hc Hci)).
    erewrite bind_done by reflexivity.
    erewrite bind_done; [done|]. apply (store_ptr _ _ row); [done|lia].
  - simpl. split_and!; [done..|]. by apply (shape_store n _ alloc known m).
Qed.

Lemma fill_zero o i j s alloc known m known' m' :
  shape (heap s) n alloc known m →
  (o < 3)%nat → (i < n)%nat → (j < n)%nat → alloc o i = true →
  (∀ o' i' j', (o' < 3)%nat → (i' < n)%nat → (j' < n)%nat →
     alloc o' i' = true → known' o' i' j' = true →
     if decide (o' = o ∧ i' = i ∧ j' = j) then m' o' i' j' = 0
     else known o' i' j' = true ∧ m' o' i' j' = m o' i' j') →
  ∃ s', (pc ← load (VPtr o) i; store pc j (VInt 0)) s = Done () s' ∧
        mallocs s' = mallocs s ∧ rands s' = rands s ∧
        clocks s' = clocks s ∧ stdout s' = stdout s ∧
        shape (heap s') n alloc known' m'.
Proof.
  intros Hs Ho Hi Hj Hal Hk.
  destruct (shape_spine n _ _ _ _ o i Hs Ho Hi Hal) as (cells & Hc & Hlen & Hci).
  destruct (shape_row n _ _ _ _ o i Hs Ho Hi Hal) as (row & Hr & Hrl & _).
  eexists. split.
  - rewrite (bind_done _ _ _ _ _ (load_ptr s o cells i _ Hc Hci)).
    apply (store_ptr _ _ row); [done|lia].
  - simpl. split_and!; [done..|]. by apply (shape_store n _ alloc known m).
Qed.

(** [A[i] = malloc(...)], [B[i] = ...] or [C[i] = ...], followed by [k]. *)
Lemma setup_alloc_step i t s :
  (i < n)%nat → (t < 3)%nat → malloc_ok e (row_block t i) = true →
  setup_inv i 0 t 0 s →
  ∃ s', (∀ B (k : () → M state B),
           (a ← malloc e n; store (VPtr t) i a ≫= k) s = k () s') ∧
        setup_inv i 0 (S t) 0 s'.
Proof.
  intros Hi Ht Hok (Hm & Hr & Hc & Ho & Hs).
  destruct (alloc_row t i s _ _ _ (alloc_stage i (S t)) Hs Ht Hi)
    as (s' & E & Hm' & Hr' & Hc' & Ho' & Hs').
  - rewrite Hm. unfold row_block. lia.
  - done.
  - intros j Hj. unfold known_stage. apply not_true_is_false. intros H. bool_lia.
  - intros o' i' H. unfold alloc_stage in *.
    destruct (decide (o' = t ∧ i' = i)); [by left|right]. bool_lia.
  - exists s'. split; [done|]. unfold task.setup_inv. split_and!; [lia|lia|congruence|congruence|done].
Qed.

Lemma mset_rand t i j :
  (t < 2)%nat → mset t i j = Z.rem (rand_val e (2 * (i * n + j) + t)%nat) 10.
Proof.
  intros Ht. destruct t as [|[|?]]; [|done|lia]. unfold task.mset. do 2 f_equal. lia.
Qed.

(** [A[i][j] = rand() % 10] or [B[i][j] = rand() % 10], followed by [k]. *)
Lemma setup_rand_step i j t s :
  (i < n)%nat → (j < n)%nat → (t < 2)%nat →
  setup_inv i j 3 t s →
  ∃ s', (∀ B (k : () → M state B),
           (pa ← load (VPtr t) i; r ← rand e;
            store pa j (VInt (Z.rem r 10)) ≫= k) s = k () s') ∧
        setup_inv i j 3 (S t) s'.
Proof.
  intros Hi Hj Ht (Hm & Hr & Hc & Ho & Hs).
  destruct (fill_rand t i j s _ _ _ (known_stage i j (S t)) mset Hs)
    as (s' & E & Hm' & Hr' & Hc' & Ho' & Hs'); [lia|done|done| | |].
  - unfold alloc_stage. bool_lia.
  - intros o' i' j' Ho3 Hi' Hj' _ Hk. unfold known_stage in *. case_decide.
    + destruct_and!. subst. rewrite Hr, mset_rand by done.
      do 3 f_equal. lia.
    + split; [|done]. bool_lia.
  - exists s'. split; [done|]. unfold task.setup_inv. split_and!; [lia|lia|congruence|congruence|done].
Qed.

(** [C[i][j] = 0], the last statement of the inner loop. *)
Lemma setup_zero_step i j s :
  (i < n)%nat → (j < n)%nat →
  setup_inv i j 3 2 s →
  ∃ s', (pc ← load (VPtr 2) i; store pc j (VInt 0)) s = Done () s' ∧
        setup_inv i (S j) 3 0 s'.
Proof.
  intros Hi Hj (Hm & Hr & Hc & Ho & Hs).
  destruct (fill_zero 2 i j s _ _ _ (known_stage i (S j) 0) mset Hs)
    as (s' & E & Hm' & Hr' & Hc' & Ho' & Hs'); [lia|done|done| | |].
  - unfold alloc_stage. bool_lia.
  - intros o' i' j' Ho3 Hi' Hj' _ Hk. unfold known_stage in *. case_decide.
    + destruct_and!. by subst.
    + split; [|done]. bool_lia.
  - exists s'. split; [done|]. unfold task.setup_inv. split_and!; [lia|lia|congruence|congruence|done].
Qed.

Lemma setup_inner_loop i s :
  (i < n)%nat → setup_inv i 0 3 0 s →
  ∃ s', for_loop n 0 (λ j,
          pa ← load (VPtr 0) i; r ← rand e; store pa j (VInt (Z.rem r 10));;
          pb ← load (VPtr 1) i; r ← rand e; store pb j (VInt (Z.rem r 10));;
          pc ← load (VPtr 2) i; store pc j (VInt 0)) s = Done () s' ∧
        setup_inv i n 3 0 s'.
Proof.
  intros Hi Hs.
  apply (for_loop_inv (λ j, setup_inv i j 3 0)); [|done].
  intros j s0 Hj H0.
  destruct (setup_rand_step i j 0 s0) as (s1 & E1 & H1); [lia..|done|].
  destruct (setup_rand_step i j 1 s1) as (s2 & E2 & H2); [lia..|done|].
  destruct (setup_zero_step i j s2) as (s3 & E3 & H3); [lia..|done|].
  exists s3. split; [|done]. by rewrite E1, E2.
Qed.

(** The first [bound] calls of [malloc] succeed. *)
Variable bound : nat.
Hypothesis Hok : ∀ k, (k < bound)%nat → malloc_ok e k = true.

Lemma setup_next_row i s : setup_inv i n 3 0 s → setup_inv (S i) 0 0 0 s.
Proof.
  intros (Hm & Hr & Hc & Ho & Hs). unfold task.setup_inv. split_and!; [lia|lia|done..|].
  revert Hs. apply shape_ext.
  - intros o i' Ho3 Hi'. unfold alloc_stage. bool_lia.
  - intros o i' j' Ho3 Hi' Hj' _. unfold known_stage. split; [|done]. bool_lia.
Qed.

Lemma setup_outer_body i s :
  (i < n)%nat → (3 + 3 * S i ≤ bound)%nat → setup_inv i 0 0 0 s →
  ∃ s', (a ← malloc e n; store (VPtr 0) i a;;
         b ← malloc e n; store (VPtr 1) i b;;
         c ← malloc e n; store (VPtr 2) i c;;
         for_loop n 0 (λ j,
           pa ← load (VPtr 0) i; r ← rand e; store pa j (VInt (Z.rem r 10));;
           pb ← load (VPtr 1) i; r ← rand e; store pb j (VInt (Z.rem r 10));;
           pc ← load (VPtr 2) i; store pc j (VInt 0))) s = Done () s' ∧
        setup_inv (S i) 0 0 0 s'.
Proof.
  intros Hi Hbound H0.
  destruct (setup_alloc_step i 0 s) as (s1 & E1 & H1);
    [done|lia|apply Hok; unfold row_block; lia|done|].
  destruct (setup_alloc_step i 1 s1) as (s2 & E2 & H2);
    [done|lia|apply Hok; unfold row_block; lia|done|].
  destruct (setup_alloc_step i 2 s2) as (s3 & E3 & H3);
    [done|lia|apply Hok; unfold row_block; lia|done|].
  destruct (setup_inner_loop i s3 Hi H3) as (s4 & E4 & H4).
  exists s4. split; [|by apply setup_next_row]. by rewrite E1, E2, E3.
Qed.

Lemma setup_spines :
  (3 ≤ bound)%nat →
  ∃ s, (∀ B (k : val → val → val → M state B),
          (A ← malloc e n; B ← malloc e n; C ← malloc e n; k A B C) init =
          k (VPtr 0) (VPtr 1) (VPtr 2) s) ∧
       setup_inv 0 0 0 0 s.
Proof.
  intros Hbound. eexists. split.
  - intros B k.
    rewrite (bind_done _ _ _ _ _ (malloc_success e n init ltac:(apply Hok; simpl; lia))).
    erewrite bind_done; [|apply malloc_success; apply Hok; simpl; lia].
    erewrite bind_done; [|apply malloc_success; apply Hok; simpl; lia].
    reflexivity.
  - unfold task.setup_inv. simpl. split_and!; [done..|]. intros o Ho. split.
    + exists (replicate n VUndef). split_and!.
      * destruct o as [|[|[|?]]]; [by simplify_map_eq..|lia].
      * by rewrite length_replicate.
      * intros i _ H. unfold alloc_stage in H. bool_lia.
    + intros i _ H. unfold alloc_stage in H. bool_lia.
Qed.

Lemma main_setup_run :
  (3 + 3 * n ≤ bound)%nat →
  ∃ s, main_setup e n init = Done (VPtr 0, VPtr 1, VPtr 2) s ∧
       mallocs s = (3 + 3 * n)%nat ∧ rands s = (2 * (n * n))%nat ∧
       clocks s = 0%nat ∧ stdout s = [] ∧ matrices s mset.
Proof.
  intros Hbound. destruct setup_spines as (s0 & E0 & H0); [lia|].
  destruct (for_loop_inv (λ i, setup_inv i 0 0 0)
              (λ i, a ← malloc e n; store (VPtr 0) i a;;
                    b ← malloc e n; store (VPtr 1) i b;;
                    c ← malloc e n; store (VPtr 2) i c;;
                    for_loop n 0 (λ j,
                      pa ← load (VPtr 0) i; r ← rand e; store pa j (VInt (Z.rem r 10));;
                      pb ← load (VPtr 1) i; r ← rand e; store pb j (VInt (Z.rem r 10));;
                      pc ← load (VPtr 2) i; store pc j (VInt 0)))
              n 0%nat) with (s := s0) as (s1 & E1 & Hm & Hr & Hc & Ho & Hs); [|done|].
  { intros i s Hi. apply setup_outer_body; lia. }
  exists s1. split.
  - unfold main_setup. rewrite E0. by rewrite (bind_done _ _ _ _ _ E1).
  - split_and!; [lia|lia|done|done|]. revert Hs. apply shape_ext.
    + intros o i Ho3 Hi _. unfold alloc_stage. bool_lia.
    + intros o i j Ho3 Hi Hj _ _. split; [|done]. unfold known_stage. bool_lia.
Qed.

End Setup.

(** *** The triple loop *)

Lemma Zsum_bounds (f : nat → Z) lo hi k :
  (∀ k', (k' < k)%nat → lo ≤ f k' ≤ hi) →
  Z.of_nat k * lo ≤ Zsum k f ≤ Z.of_nat k * hi.
Proof.
  induction k as [|k IH]; intros Hf; simpl; [lia|].
  specialize (IH ltac:(intros; apply Hf; lia)). specialize (Hf k ltac:(lia)). lia.
Qed.

Lemma Zsum_ext (f g : nat → Z) k :
  (∀ k', (k' < k)%nat → f k' = g k') → Zsum k f = Zsum k g.
Proof.
  induction k as [|k IH]; intros Hfg; simpl; [done|].
  rewrite IH by (intros; apply Hfg; lia). by rewrite Hfg by lia.
Qed.

Section Multiply.

Variables (n : nat) (a b : nat → nat → Z).
Hypothesis Ha : ∀ i k, -9 ≤ a i k ≤ 9.
Hypothesis Hb : ∀ k j, -9 ≤ b k j ≤ 9.
Hypothesis Hn : 81 * Z.of_nat n ≤ INT_MAX.

Local Abbreviation mult_inv := (task.mult_inv n a b).

Lemma dot_bounds i j k : - (81 * Z.of_nat k) ≤ dot a b i j k ≤ 81 * Z.of_nat k.
Proof.
  pose proof (Zsum_bounds (λ k', a i k' * b k' j) (-81) 81 k) as H.
  unfold dot. cut (∀ k', (k' < k)%nat → -81 ≤ a i k' * b k' j ≤ 81).
  { intros Hf. specialize (H Hf). lia. }
  intros k' _. specialize (Ha i k'). specialize (Hb k' j). nia.
Qed.

(** [C[i][j] += A[i][k] * B[k][j]] *)
Lemma multiply_body s0 i j k s :
  (i < n)%nat → (j < n)%nat → (k < n)%nat →
  mult_inv s0 i j k s →
  ∃ s', (pc ← load (VPtr 2) i; c ← load pc j ≫= as_int;
         pa ← load (VPtr 0) i; x ← load pa k ≫= as_int;
         pb ← load (VPtr 1) k; y ← load pb j ≫= as_int;
         xy ← lift (int_mul x y);
         sum ← lift (int_add c xy);
         store pc j (VInt sum)) s = Done () s' ∧
        mult_inv s0 i j (S k) s'.
Proof.
  intros Hi Hj Hk [Hio Hs].
  destruct (shape_spine n _ _ _ _ 2 i Hs) as (cC & HcC & _ & HcCi); [lia|done..|].
  destruct (shape_row n _ _ _ _ 2 i Hs) as (rC & HrC & HrCl & HrCj); [lia|done..|].
  destruct (shape_spine n _ _ _ _ 0 i Hs) as (cA & HcA & _ & HcAi); [lia|done..|].
  destruct (shape_row n _ _ _ _ 0 i Hs) as (rA & HrA & _ & HrAk); [lia|done..|].
  destruct (shape_spine n _ _ _ _ 1 k Hs) as (cB & HcB & _ & HcBk); [lia|done..|].
  destruct (shape_row n _ _ _ _ 1 k Hs) as (rB & HrB & _ & HrBj); [lia|done..|].
  specialize (HrCj j Hj eq_refl). specialize (HrAk k Hk eq_refl).
  specialize (HrBj j Hj eq_refl). simpl in HrAk, HrBj.
  assert (mult_stage n a b i j k 2 i j = dot a b i j k) as Ec.
  { unfold mult_stage. bool_cases. }
  rewrite Ec in HrCj.
  pose proof (Ha i k). pose proof (Hb k j). pose proof (dot_bounds i j k).
  eexists. split.
  - rewrite (bind_done _ _ _ _ _ (load_ptr s _ _ _ _ HcC HcCi)).
    rewrite (bind_done _ _ _ _ _ (load_int s _ _ _ _ HrC HrCj)).
    rewrite (bind_done _ _ _ _ _ (load_ptr s _ _ _ _ HcA HcAi)).
    rewrite (bind_done _ _ _ _ _ (load_int s _ _ _ _ HrA HrAk)).
    rewrite (bind_done _ _ _ _ _ (load_ptr s _ _ _ _ HcB HcBk)).
    rewrite (bind_done _ _ _ _ _ (load_int s _ _ _ _ HrB HrBj)).
    unfold int_mul, int_add.
    rewrite (signed_in 32 (a i k * b k j)) by (apply int_range; unfold INT_MAX; nia).
    erewrite bind_done by reflexivity.
    rewrite (signed_in 32) by (apply int_range; unfold INT_MAX in *; nia).
    erewrite bind_done by reflexivity.
    apply (store_ptr _ _ rC); [done|lia].
  - split; [done|]. unfold task.matrices in *. simpl.
    apply (shape_store n _ _ _ _ 2 i j rC _ _ _ Hs); [lia|done..|].
    intros o' i' j' Ho' Hi' Hj' _ _. case_decide as Hd.
    + destruct Hd as (-> & -> & ->). unfold mult_stage. bool_cases.
    + split; [done|]. destruct o' as [|[|[|?]]]; [done|done| |lia].
      unfold mult_stage. bool_cases.
Qed.

Lemma mult_next_column s0 i j s :
  mult_inv s0 i j n s → mult_inv s0 i (S j) 0 s.
Proof.
  intros [Hio Hs]. split; [done|]. revert Hs. apply shape_ext; [done|].
  intros o i' j' _ Hi' Hj' _ _. split; [done|].
  destruct o as [|[|?]]; [done..|]. unfold mult_stage. bool_cases.
  all: subst; lia.
Qed.

Lemma mult_next_row s0 i s :
  mult_inv s0 i n 0 s → mult_inv s0 (S i) 0 0 s.
Proof.
  intros [Hio Hs]. split; [done|]. revert Hs. apply shape_ext; [done|].
  intros o i' j' _ Hi' Hj' _ _. split; [done|].
  destruct o as [|[|?]]; [done..|]. unfold mult_stage. bool_cases.
Qed.

Lemma main_multiply_run s0 :
  matrices n s0 (mult_stage n a b 0 0 0) →
  ∃ s, main_multiply n (VPtr 0) (VPtr 1) (VPtr 2) s0 = Done () s ∧
       same_io s s0 ∧ matrices n s (mult_stage n a b n 0 0).
Proof.
  intros H0. unfold main_multiply.
  apply (for_loop_inv (λ i, mult_inv s0 i 0 0)); [|by split].
  intros i s Hi Hs.
  destruct (for_loop_inv (λ j, mult_inv s0 i j 0)
              (λ j, for_loop n 0 (λ k,
                 pc ← load (VPtr 2) i; c ← load pc j ≫= as_int;
                 pa ← load (VPtr 0) i; x ← load pa k ≫= as_int;
                 pb ← load (VPtr 1) k; y ← load pb j ≫= as_int;
                 xy ← lift (int_mul x y);
                 sum ← lift (int_add c xy);
                 store pc j (VInt sum))) n 0%nat) with (s := s)
    as (s' & E & Hs'); [|done|].
  { intros j s1 Hj Hs1.
    destruct (for_loop_inv (λ k, mult_inv s0 i j k)
                (λ k, pc ← load (VPtr 2) i; c ← load pc j ≫= as_int;
                      pa ← load (VPtr 0) i; x ← load pa k ≫= as_int;
                      pb ← load (VPtr 1) k; y ← load pb j ≫= as_int;
                      xy ← lift (int_mul x y);
                      sum ← lift (int_add c xy);
                      store pc j (VInt sum)) n 0%nat) with (s := s1)
      as (s2 & E2 & Hs2); [|done|].
    { intros k s2 Hk Hs2. apply multiply_body; [lia..|done]. }
    exists s2. split; [done|]. by apply mult_next_column. }
  exists s'. split; [done|]. by apply mult_next_row.
Qed.

End Multiply.

(** *** A run without allocation failure *)

Lemma rem_10_bounds r : -9 ≤ Z.rem r 10 ≤ 9.
Proof. pose proof (Z.rem_bound_abs r 10 ltac:(done)). lia. Qed.

Lemma rem_10_nonneg r : 0 ≤ r → 0 ≤ Z.rem r 10 ≤ 9.
Proof. intros Hr. pose proof (Z.rem_bound_pos r 10 Hr ltac:(done)). lia. Qed.

Section MainRun.

Variables (e : env) (n : nat).
Hypothesis Hok : ∀ k, (k < 3 + 3 * n)%nat → malloc_ok e k = true.
Hypothesis Hn : 81 * Z.of_nat n ≤ INT_MAX.

Local Abbreviation final := (task.final e n).

Lemma main_n_run :
  ∃ s1 s3,
    main_setup e n init = Done (VPtr 0, VPtr 1, VPtr 2) s1 ∧
    clocks s1 = 0%nat ∧ stdout s1 = [] ∧
    matrices n s1 (mset e n) ∧
    main_multiply n (VPtr 0) (VPtr 1) (VPtr 2)
      (State (heap s1) (mallocs s1) (rands s1) 1 []) = Done () s3 ∧
    clocks s3 = 1%nat ∧
    matrices n s3 final ∧
    main_n e n init =
      Done 0 (State (heap s3) (3 + 3 * n) (2 * (n * n)) 2
                [Printf ("Elapsed time: %.4f" ++ newline)
                   [ArgDouble (ClockSeconds (clock_val e s3 - clock_val e s1))]]).
Proof.
  destruct (main_setup_run e n (3 + 3 * n) Hok ltac:(lia))
    as (s1 & E1 & Hm1 & Hr1 & Hc1 & Ho1 & Hs1).
  destruct (main_multiply_run n (mset e n 0) (mset e n 1))
    with (s0 := State (heap s1) (mallocs s1) (rands s1) 1 [])
    as (s3 & E3 & (Hm3 & Hr3 & Hc3 & Ho3) & Hs3).
  { intros. apply rem_10_bounds. }
  { intros. apply rem_10_bounds. }
  { done. }
  { revert Hs1. unfold task.matrices. simpl. apply shape_ext; [done|].
    intros o i j _ _ _ _ _. split; [done|].
    destruct o as [|[|?]]; [done..|]. unfold mult_stage. bool_cases. }
  exists s1, s3. split_and!; [done..|].
  unfold main_n. rewrite (bind_done _ _ _ _ _ E1).
  erewrite bind_done by reflexivity. simpl in *. rewrite Hc1, Ho1.
  rewrite (bind_done _ _ _ _ _ E3).
  erewrite bind_done by reflexivity.
  erewrite bind_done by reflexivity.
  unfold mret, M_ret. simpl. rewrite Hm3, Hr3, Hc3, Ho3, Hm1, Hr1. done.
Qed.

Lemma final_C i j :
  (i < n)%nat → final 2 i j = Zsum n (λ k, final 0 i k * final 1 k j).
Proof. intros Hi. unfold task.final, mult_stage. bool_cases. Qed.

End MainRun.

(** *** A run with an allocation failure *)

Section AllocationFailure.

Variables (e : env) (n : nat).
Hypothesis Hn : (0 < n)%nat.

Lemma malloc_any s :
  ∃ v s', malloc e n s = Done v s' ∧
    mallocs s' = S (mallocs s) ∧ clocks s' = clocks s ∧ stdout s' = stdout s ∧
    ∀ b, b ≠ mallocs s → heap s' !! b = heap s !! b.
Proof.
  unfold malloc. destruct (malloc_ok e (mallocs s)); eexists _, _;
    (split; [done|]); simpl; split_and!; try done.
  intros b Hb. by rewrite lookup_insert_ne.
Qed.

(** [p[i] = malloc(...)] through a valid [p], whatever [malloc] returns. *)
Lemma weak_alloc_store o i s cells :
  heap s !! o = Some cells → (i < length cells)%nat → o ≠ mallocs s →
  ∃ s', (∀ B (k : () → M state B),
           (x ← malloc e n; store (VPtr o) i x ≫= k) s = k () s') ∧
        mallocs s' = S (mallocs s) ∧ clocks s' = clocks s ∧ stdout s' = stdout s ∧
        (∀ b, b ≠ mallocs s → b ≠ o → heap s' !! b = heap s !! b) ∧
        ∃ cells', heap s' !! o = Some cells' ∧ length cells' = length cells.
Proof.
  intros Hc Hi Hne. destruct (malloc_any s) as (v & s1 & E & Hm & Hcl & Ho & Hag).
  exists (set_heap s1 (<[o := <[i := v]> cells]> (heap s1))). split.
  - intros B k. rewrite (bind_done _ _ _ _ _ E). erewrite bind_done; [done|].
    apply store_ptr; [by rewrite Hag|done].
  - simpl. split_and!; [done..| |].
    + intros b Hb Hbo. rewrite lookup_insert_ne by done. by apply Hag.
    + eexists. rewrite lookup_insert_eq. split; [done|]. by rewrite length_insert.
Qed.

(** [p[i] = malloc(...)] when [p] is the null pointer. *)
Lemma null_alloc_store i s :
  ∃ s', (∀ B (k : () → M state B),
           (x ← malloc e n; store VNull i x ≫= k) s = Crash NullDeref s') ∧
        clocks s' = clocks s ∧ stdout s' = stdout s.
Proof.
  destruct (malloc_any s) as (v & s1 & E & _ & Hcl & Ho & _).
  exists s1. split; [|done]. intros B k. by rewrite (bind_done _ _ _ _ _ E).
Qed.

(** [p[i] = malloc(...)] when this call of [malloc] fails: the null
    pointer is stored. *)
Lemma fail_alloc_store o i s cells :
  malloc_ok e (mallocs s) = false →
  heap s !! o = Some cells → (i < length cells)%nat →
  ∀ B (k : () → M state B),
    (x ← malloc e n; store (VPtr o) i x ≫= k) s =
    k () (State (<[o := <[i := VNull]> cells]> (heap s)) (S (mallocs s))
                (rands s) (clocks s) (stdout s)).
Proof.
  intros Hf Hc Hi B k. rewrite (bind_done _ _ _ _ _ (malloc_failure e n s Hf)).
  erewrite bind_done; [|by apply store_ptr]. done.
Qed.

Lemma fill_any o i s cells r row :
  heap s !! o = Some cells → cells !! i = Some (VPtr r) →
  heap s !! r = Some row → (0 < length row)%nat →
  ∀ B (k : () → M state B),
    (pa ← load (VPtr o) i; x ← rand e; store pa 0 (VInt (Z.rem x 10)) ≫= k) s =
    k () (State (<[r := <[0%nat := VInt (Z.rem (rand_val e (rands s)) 10)]> row]> (heap s))
                (mallocs s) (S (rands s)) (clocks s) (stdout s)).
Proof.
  intros Hc Hi Hr Hl B k. rewrite (bind_done _ _ _ _ _ (load_ptr s o cells i _ Hc Hi)).
  erewrite bind_done by reflexivity. erewrite bind_done; [|by apply store_ptr]. done.
Qed.

Lemma null_fill_rand o i s cells :
  heap s !! o = Some cells → cells !! i = Some VNull →
  ∀ B (k : () → M state B),
    (pa ← load (VPtr o) i; x ← rand e; store pa 0 (VInt (Z.rem x 10)) ≫= k) s =
    Crash NullDeref (State (heap s) (mallocs s) (S (rands s)) (clocks s) (stdout s)).
Proof.
  intros Hc Hi B k. rewrite (bind_done _ _ _ _ _ (load_ptr s o cells i _ Hc Hi)).
  by erewrite bind_done by reflexivity.
Qed.

Lemma null_fill_zero o i s cells :
  heap s !! o = Some cells → cells !! i = Some VNull →
  (pc ← load (VPtr o) i; store pc 0 (VInt 0)) s = Crash NullDeref s.
Proof.
  intros Hc Hi. by rewrite (bind_done _ _ _ _ _ (load_ptr s o cells i _ Hc Hi)).
Qed.

(** The body of the inner loop of the fill, for the row [i]. *)
Local Abbreviation fill_cells i :=
  (λ j : nat,
     pa ← load (VPtr 0) i; r ← rand e; store pa j (VInt (Z.rem r 10));;
     pb ← load (VPtr 1) i; r ← rand e; store pb j (VInt (Z.rem r 10));;
     pc ← load (VPtr 2) i; store pc j (VInt 0)) (only parsing).

(** The body of the outer loop of the fill. *)
Local Abbreviation alloc_rows :=
  (λ i : nat,
     a ← malloc e n; store (VPtr 0) i a;;
     b ← malloc e n; store (VPtr 1) i b;;
     c ← malloc e n; store (VPtr 2) i c;;
     for_loop n 0 (fill_cells i)) (only parsing).

(** The allocation of row [i] of matrix [t] is the first to fail. *)
Lemma row_failure i t s :
  (i < n)%nat → (t < 3)%nat → setup_inv e n i 0 0 0 s →
  (∀ k, (k < row_block t i)%nat → malloc_ok e k = true) →
  malloc_ok e (row_block t i) = false →
  ∃ s', alloc_rows i s = Crash NullDeref s' ∧ quiet s'.
Proof.
  intros Hi Ht H0 Hok Hfail.
  destruct t as [|[|[|?]]]; [| | |lia].
  - (* A[i] is null *)
    destruct H0 as (Hm & _ & Hc & Ho & Hs).
    destruct (shape_spine_block n _ _ _ _ 0 Hs) as (cA & HcA & HlA); [lia|].
    destruct (shape_spine_block n _ _ _ _ 1 Hs) as (cB & HcB & HlB); [lia|].
    destruct (shape_spine_block n _ _ _ _ 2 Hs) as (cC & HcC & HlC); [lia|].
    rewrite (fail_alloc_store 0 i s cA); [|by rewrite Hm|done|lia].
    edestruct (weak_alloc_store 1 i) as (s2 & E2 & Hm2 & Hc2 & Ho2 & Hag2 & _);
      [| | |rewrite E2].
    { simpl. rewrite lookup_insert_ne by done. exact HcB. }
    { lia. }
    { simpl. lia. }
    edestruct (weak_alloc_store 2 i s2) as (s3 & E3 & Hm3 & Hc3 & Ho3 & Hag3 & _);
      [| | |rewrite E3].
    { rewrite Hag2 by (simpl; lia). simpl. rewrite lookup_insert_ne by done. exact HcC. }
    { lia. }
    { simpl in *. lia. }
    eexists. split.
    + apply for_loop_first_crash; [done|]. eapply (null_fill_rand 0 i s3).
      * rewrite Hag3, Hag2 by (simpl in *; lia). simpl. by rewrite lookup_insert_eq.
      * by rewrite list_lookup_insert_eq by lia.
    + split; simpl in *; congruence.
  - (* B[i] is null *)
    destruct (setup_alloc_step e n i 0 s) as (s1 & E1 & Hm & _ & Hc & Ho & Hs);
      [done|lia|apply Hok; other_block|done|]. rewrite E1.
    destruct (shape_spine n _ _ _ _ 0 i Hs) as (cA & HcA & _ & HcAi);
      [lia|done|unfold alloc_stage; bool_lia|].
    destruct (shape_row n _ _ _ _ 0 i Hs) as (rA & HrA & HlrA & _);
      [lia|done|unfold alloc_stage; bool_lia|].
    destruct (shape_spine_block n _ _ _ _ 1 Hs) as (cB & HcB & HlB); [lia|].
    destruct (shape_spine_block n _ _ _ _ 2 Hs) as (cC & HcC & HlC); [lia|].
    rewrite (fail_alloc_store 1 i s1 cB); [|rewrite Hm; exact Hfail|done|lia].
    edestruct (weak_alloc_store 2 i) as (s3 & E3 & Hm3 & Hc3 & Ho3 & Hag3 & _);
      [| | |rewrite E3].
    { simpl. rewrite lookup_insert_ne by done. exact HcC. }
    { lia. }
    { simpl. lia. }
    simpl in Hag3, Hm3, Hc3, Ho3.
    eexists. split.
    + apply for_loop_first_crash; [done|].
      rewrite (fill_any 0 i s3 cA (row_block 0 i) rA); [| | | |lia].
      * apply (null_fill_rand 1 i _ (<[i := VNull]> cB)).
        -- simpl. rewrite lookup_insert_ne by other_block.
           rewrite Hag3 by other_block. by rewrite lookup_insert_eq.
        -- by rewrite list_lookup_insert_eq by lia.
      * rewrite Hag3 by other_block. by rewrite lookup_insert_ne.
      * done.
      * rewrite Hag3 by other_block. rewrite lookup_insert_ne by other_block. done.
    + split; simpl; congruence.
  - (* C[i] is null *)
    destruct (setup_alloc_step e n i 0 s) as (s1 & E1 & H1);
      [done|lia|apply Hok; other_block|done|]. rewrite E1.
    destruct (setup_alloc_step e n i 1 s1) as (s2 & E2 & Hm & _ & Hc & Ho & Hs);
      [done|lia|apply Hok; other_block|done|]. rewrite E2.
    destruct (shape_spine n _ _ _ _ 0 i Hs) as (cA & HcA & _ & HcAi);
      [lia|done|unfold alloc_stage; bool_lia|].
    destruct (shape_row n _ _ _ _ 0 i Hs) as (rA & HrA & HlrA & _);
      [lia|done|unfold alloc_stage; bool_lia|].
    destruct (shape_spine n _ _ _ _ 1 i Hs) as (cB & HcB & _ & HcBi);
      [lia|done|unfold alloc_stage; bool_lia|].
    destruct (shape_row n _ _ _ _ 1 i Hs) as (rB & HrB & HlrB & _);
      [lia|done|unfold alloc_stage; bool_lia|].
    destruct (shape_spine_block n _ _ _ _ 2 Hs) as (cC & HcC & HlC); [lia|].
    rewrite (fail_alloc_store 2 i s2 cC); [|rewrite Hm; exact Hfail|done|lia].
    eexists. split.
    + apply for_loop_first_crash; [done|].
      rewrite (fill_any 0 i _ cA (row_block 0 i) rA); [| | | |lia].
      * rewrite (fill_any 1 i _ cB (row_block 1 i) rB); [| | | |lia].
        -- apply (null_fill_zero 2 i _ (<[i := VNull]> cC)).
           ++ simpl. rewrite !lookup_insert_ne by other_block.
              by rewrite lookup_insert_eq.
           ++ by rewrite list_lookup_insert_eq by lia.
        -- simpl. by rewrite !lookup_insert_ne by other_block.
        -- done.
        -- simpl. by rewrite !lookup_insert_ne by other_block.
      * simpl. by rewrite lookup_insert_ne.
      * done.
      * simpl. by rewrite lookup_insert_ne by other_block.
    + split; simpl; congruence.
Qed.

(** The allocation of one of the arrays of row pointers is the first to
    fail. *)
Lemma spine_failure k0 :
  (k0 < 3)%nat → (∀ k, (k < k0)%nat → malloc_ok e k = true) →
  malloc_ok e k0 = false →
  ∃ s', main_setup e n init = Crash NullDeref s' ∧ quiet s'.
Proof.
  intros Hk0 Hok Hfail. unfold main_setup.
  destruct k0 as [|[|[|?]]]; [| | |lia].
  - rewrite (bind_done _ _ _ _ _ (malloc_failure e n init Hfail)).
    edestruct malloc_any as (B & s2 & E2 & Hm2 & Hc2 & Ho2 & _).
    rewrite (bind_done _ _ _ _ _ E2).
    edestruct (malloc_any s2) as (C & s3 & E3 & Hm3 & Hc3 & Ho3 & _).
    rewrite (bind_done _ _ _ _ _ E3).
    destruct (null_alloc_store 0 s3) as (s' & E & Hc & Ho).
    exists s'. split; [|split; simpl in *; congruence].
    apply bind_crash, for_loop_first_crash; [done|]. apply E.
  - rewrite (bind_done _ _ _ _ _ (malloc_success e n init ltac:(apply Hok; simpl; lia))).
    erewrite bind_done; [|by apply malloc_failure].
    edestruct malloc_any as (C & s3 & E3 & Hm3 & Hc3 & Ho3 & Hag3).
    rewrite (bind_done _ _ _ _ _ E3). simpl in *.
    destruct (weak_alloc_store 0 0 s3 (replicate n VUndef))
      as (s4 & E4 & Hm4 & Hc4 & Ho4 & _).
    { rewrite Hag3 by lia. by rewrite lookup_insert_eq. }
    { rewrite length_replicate. lia. }
    { lia. }
    destruct (null_alloc_store 0 s4) as (s' & E & Hc & Ho).
    exists s'. split; [|split; congruence].
    apply bind_crash, for_loop_first_crash; [done|]. rewrite E4. apply E.
  - rewrite (bind_done _ _ _ _ _ (malloc_success e n init ltac:(apply Hok; simpl; lia))).
    erewrite bind_done; [|apply malloc_success; apply Hok; simpl; lia].
    erewrite bind_done; [|by apply malloc_failure]. simpl.
    destruct (weak_alloc_store 0 0
                (State (<[1%nat := replicate n VUndef]>
                          (<[0%nat := replicate n VUndef]> ∅)) 3 0 0 [])
                (replicate n VUndef))
      as (s4 & E4 & Hm4 & Hc4 & Ho4 & Hag4 & _).
    { simpl. rewrite lookup_insert_ne by done. by rewrite lookup_insert_eq. }
    { rewrite length_replicate. lia. }
    { simpl. lia. }
    simpl in *.
    destruct (weak_alloc_store 1 0 s4 (replicate n VUndef))
      as (s5 & E5 & Hm5 & Hc5 & Ho5 & _).
    { rewrite Hag4 by lia. by rewrite lookup_insert_eq. }
    { rewrite length_replicate. lia. }
    { lia. }
    destruct (null_alloc_store 0 s5) as (s' & E & Hc & Ho).
    exists s'. split; [|split; congruence].
    apply bind_crash, for_loop_first_crash; [done|]. rewrite E4, E5. apply E.
Qed.

Lemma first_failure (f : nat → bool) k :
  f k = false →
  ∃ k0, (k0 ≤ k)%nat ∧ f k0 = false ∧ ∀ k', (k' < k0)%nat → f k' = true.
Proof.
  assert (∀ m, (∀ k', (k' < m)%nat → f k' = true) ∨
               ∃ k0, (k0 < m)%nat ∧ f k0 = false ∧
                     ∀ k', (k' < k0)%nat → f k' = true) as Hscan.
  { induction m as [|m [IH|(k0 & ? & ? & ?)]].
    - left. lia.
    - destruct (f m) eqn:E.
      + left. intros k' Hk'. destruct (decide (k' = m)) as [->|]; [done|].
        apply IH. lia.
      + right. exists m. split_and!; [lia|done..].
    - right. exists k0. split_and!; [lia|done..]. }
  intros Hk. destruct (Hscan (S k)) as [Hall|(k0 & ? & ? & ?)].
  - rewrite Hall in Hk by lia. done.
  - exists k0. split_and!; [lia|done..].
Qed.

Lemma main_setup_failure k :
  (k < 3 + 3 * n)%nat → malloc_ok e k = false →
  ∃ s', main_setup e n init = Crash NullDeref s' ∧ quiet s'.
Proof.
  intros Hk Hfail.
  destruct (first_failure (malloc_ok e) k Hfail) as (k0 & Hk0 & Hf0 & Hok).
  destruct (decide (k0 < 3)%nat) as [Hlt|Hge]; [by apply (spine_failure k0)|].
  set (i := ((k0 - 3) / 3)%nat). set (t := ((k0 - 3) mod 3)%nat).
  assert (k0 = row_block t i ∧ t < 3 ∧ i < n)%nat as (Ek0 & Ht & Hi).
  { pose proof (Nat.div_mod_eq (k0 - 3) 3). pose proof (Nat.mod_upper_bound (k0 - 3) 3).
    unfold row_block. subst i t. lia. }
  destruct (setup_spines e n k0 Hok) as (s0 & E0 & H0); [lia|].
  destruct (for_loop_crash (λ i', setup_inv e n i' 0 0 0) quiet
              (λ i' : nat,
                 a ← malloc e n; store (VPtr 0) i' a;;
                 b ← malloc e n; store (VPtr 1) i' b;;
                 c ← malloc e n; store (VPtr 2) i' c;;
                 for_loop n 0 (fill_cells i'))
              NullDeref i n 0%nat) with (s := s0) as (s' & E & HQ); [lia| | |done|].
  - intros i' s Hi'. apply (setup_outer_body e n k0 Hok); unfold row_block in *; lia.
  - intros s Hs. apply (row_failure i t); [done..| |]; by rewrite <- Ek0.
  - exists s'. split; [|done]. unfold main_setup. rewrite E0. by apply bind_crash.
Qed.

Lemma main_n_failure k :
  (k < 3 + 3 * n)%nat → malloc_ok e k = false →
  ∃ s', main_n e n init = Crash NullDeref s' ∧ quiet s'.
Proof.
  intros Hk Hfail. destruct (main_setup_failure k Hk Hfail) as (s' & E & HQ).
  exists s'. split; [|done]. unfold main_n. by apply bind_crash.
Qed.

End AllocationFailure.

(** *** Claims *)

Lemma N_positive : (0 < N)%nat.
Proof. unfold N. lia. Qed.

Lemma N_fits : 81 * Z.of_nat N ≤ INT_MAX.
Proof. by vm_compute. Qed.

(** The cells of the three matrices in the state [s] whose heap is that
    of the end of the triple loop. *)
Lemma final_cells e s3 s o i j :
  matrices N s3 (final e N) → heap s = heap s3 →
  (o < 3)%nat → (i < N)%nat → (j < N)%nat →
  cell s (VPtr o) i j = Some (final e N o i j).
Proof.
  intros Hs3 Hh Ho Hi Hj. rewrite (cell_heap s3 s) by done. by apply (matrices_cell N).
Qed.

(** C1: when no allocation fails, [main] returns 0 and in its final
    state, whose heap is the one the triple loop leaves, every entry
    [C[i][j]] with [i, j < 500] is the sum over [k < 500] of
    [A[i][k] * B[k][j]], computed without overflow. *)
Theorem matrix_product (e : env) :
  (∀ k, (k < 3 + 3 * N)%nat → malloc_ok e k = true) →
  ∃ A B C s1 s,
    main_setup e N init = Done (A, B, C) s1 ∧
    main e init = Done 0 s ∧
    ∀ i j, (i < N)%nat → (j < N)%nat →
      is_Some (cell s A i j) ∧ is_Some (cell s B i j) ∧
      cell s C i j = Some (Zsum N (λ k, entry s A i k * entry s B k j)).
Proof.
  intros Hok.
  destruct (main_n_run e N Hok N_fits) as (s1 & s3 & E1 & _ & _ & _ & _ & _ & Hs3 & E).
  eexists (VPtr 0), (VPtr 1), (VPtr 2), s1, _.
  split; [exact E1|]. split; [exact E|]. intros i j Hi Hj.
  split; [|split].
  - erewrite final_cells; [done|exact Hs3|reflexivity|lia|done|done].
  - erewrite final_cells; [done|exact Hs3|reflexivity|lia|done|done].
  - erewrite final_cells; [|exact Hs3|reflexivity|lia|done|done].
    f_equal. rewrite final_C by done. apply Zsum_ext. intros k Hk. unfold entry.
    erewrite (final_cells e s3 _ 0); [|exact Hs3|reflexivity|lia|done|done].
    erewrite (final_cells e s3 _ 1); [|exact Hs3|reflexivity|lia|done|done].
    reflexivity.
Qed.

Lemma matrix_product_witness :
  ∃ A B C s1 s,
    main_setup plain_env N init = Done (A, B, C) s1 ∧
    main plain_env init = Done 0 s ∧
    ∀ i j, (i < N)%nat → (j < N)%nat →
      is_Some (cell s A i j) ∧ is_Some (cell s B i j) ∧
      cell s C i j = Some (Zsum N (λ k, entry s A i k * entry s B k j)).
Proof. apply (matrix_product plain_env). intros k _. reflexivity. Defined.

(** C9: when no allocation fails, the triple loop, run from the state
    [s2] in which [main] reaches it, ends in a state [s3] where every
    entry of A and of B is the one of [s2]. *)
Theorem multiply_frame (e : env) :
  (∀ k, (k < 3 + 3 * N)%nat → malloc_ok e k = true) →
  ∃ A B C s1 t s2 s3,
    main_setup e N init = Done (A, B, C) s1 ∧
    clock e s1 = Done t s2 ∧
    main_multiply N A B C s2 = Done () s3 ∧
    ∀ i j, (i < N)%nat → (j < N)%nat →
      is_Some (cell s2 A i j) ∧ is_Some (cell s2 B i j) ∧
      cell s3 A i j = cell s2 A i j ∧ cell s3 B i j = cell s2 B i j.
Proof.
  intros Hok.
  destruct (main_n_run e N Hok N_fits)
    as (s1 & s3 & E1 & Hc1 & Ho1 & Hs1 & E3 & _ & Hs3 & _).
  exists (VPtr 0), (VPtr 1), (VPtr 2), s1, (clock_val e s1),
    (State (heap s1) (mallocs s1) (rands s1) 1 []), s3.
  split; [exact E1|]. split; [by unfold clock; rewrite Hc1, Ho1|].
  split; [exact E3|]. intros i j Hi Hj.
  assert (∀ o, (o < 2)%nat →
            cell (State (heap s1) (mallocs s1) (rands s1) 1 []) (VPtr o) i j
            = Some (final e N o i j)) as Hbefore.
  { intros o Ho. rewrite (cell_heap s1) by done.
    rewrite (matrices_cell N s1 (mset e N)) by (done || lia).
    by destruct o as [|[|?]]; [..|lia]. }
  rewrite !Hbefore by lia.
  rewrite !(matrices_cell N s3 (final e N)) by (done || lia).
  by split_and!.
Qed.

Lemma multiply_frame_witness :
  ∃ A B C s1 t s2 s3,
    main_setup plain_env N init = Done (A, B, C) s1 ∧
    clock plain_env s1 = Done t s2 ∧
    main_multiply N A B C s2 = Done () s3 ∧
    ∀ i j, (i < N)%nat → (j < N)%nat →
      is_Some (cell s2 A i j) ∧ is_Some (cell s2 B i j) ∧
      cell s3 A i j = cell s2 A i j ∧ cell s3 B i j = cell s2 B i j.
Proof. apply (multiply_frame plain_env). intros k _. reflexivity. Defined.

(** C6: when no allocation fails and [rand()] returns non-negative
    values, every entry written into A and B is in [0, 9] and stays
    there, every sum accumulated in an entry of C is in [0, 40500], and
    the run ends without signed overflow. *)
Theorem matrix_entries_bounded (e : env) :
  (∀ k, (k < 3 + 3 * N)%nat → malloc_ok e k = true) →
  (∀ k, 0 ≤ rand_val e k) →
  ∃ A B C s1 s,
    main_setup e N init = Done (A, B, C) s1 ∧
    main e init = Done 0 s ∧
    40500 ≤ INT_MAX ∧
    ∀ i j, (i < N)%nat → (j < N)%nat →
      (∃ a, cell s1 A i j = Some a ∧ cell s A i j = Some a ∧ 0 ≤ a ≤ 9) ∧
      (∃ b, cell s1 B i j = Some b ∧ cell s B i j = Some b ∧ 0 ≤ b ≤ 9) ∧
      (∀ k, (k ≤ N)%nat →
         0 ≤ Zsum k (λ k', entry s A i k' * entry s B k' j) ≤ 40500) ∧
      (∃ c, cell s C i j = Some c ∧ 0 ≤ c ≤ 40500).
Proof.
  intros Hok Hrand.
  destruct (main_n_run e N Hok N_fits)
    as (s1 & s3 & E1 & _ & _ & Hs1 & _ & _ & Hs3 & E).
  eexists (VPtr 0), (VPtr 1), (VPtr 2), s1, _.
  split; [exact E1|]. split; [exact E|]. split; [by vm_compute|].
  intros i j Hi Hj.
  assert (∀ i' j', 0 ≤ final e N 0 i' j' ≤ 9) as HA.
  { intros. apply rem_10_nonneg, Hrand. }
  assert (∀ i' j', 0 ≤ final e N 1 i' j' ≤ 9) as HB.
  { intros. apply rem_10_nonneg, Hrand. }
  assert (∀ k, (k ≤ N)%nat →
            0 ≤ Zsum k (λ k', final e N 0 i k' * final e N 1 k' j) ≤ 40500) as HC.
  { intros k Hk.
    pose proof (Zsum_bounds (λ k', final e N 0 i k' * final e N 1 k' j) 0 81 k) as H.
    assert (Z.of_nat N = 500) as HN by reflexivity.
    cut (∀ k', (k' < k)%nat → 0 ≤ final e N 0 i k' * final e N 1 k' j ≤ 81).
    { intros Hf. specialize (H Hf). lia. }
    intros k' _. specialize (HA i k'). specialize (HB k' j). nia. }
  split_and!.
  - exists (final e N 0 i j). split_and!; [|
      erewrite final_cells; [done|exact Hs3|reflexivity|lia|done|done]|apply HA..].
    by rewrite (matrices_cell N s1 (mset e N)) by (done || lia).
  - exists (final e N 1 i j). split_and!; [|
      erewrite final_cells; [done|exact Hs3|reflexivity|lia|done|done]|apply HB..].
    by rewrite (matrices_cell N s1 (mset e N)) by (done || lia).
  - intros k Hk. erewrite Zsum_ext; [apply (HC k Hk)|]. intros k' Hk'. unfold entry.
    erewrite (final_cells e s3 _ 0); [|exact Hs3|reflexivity|lia|lia|lia].
    erewrite (final_cells e s3 _ 1); [|exact Hs3|reflexivity|lia|lia|lia].
    reflexivity.
  - exists (final e N 2 i j). split.
    + erewrite final_cells; [done|exact Hs3|reflexivity|lia|done|done].
    + rewrite final_C by done. apply (HC N). lia.
Qed.

Lemma matrix_entries_bounded_witness :
  ∃ A B C s1 s,
    main_setup plain_env N init = Done (A, B, C) s1 ∧
    main plain_env init = Done 0 s ∧
    40500 ≤ INT_MAX ∧
    ∀ i j, (i < N)%nat → (j < N)%nat →
      (∃ a, cell s1 A i j = Some a ∧ cell s A i j = Some a ∧ 0 ≤ a ≤ 9) ∧
      (∃ b, cell s1 B i j = Some b ∧ cell s B i j = Some b ∧ 0 ≤ b ≤ 9) ∧
      (∀ k, (k ≤ N)%nat →
         0 ≤ Zsum k (λ k', entry s A i k' * entry s B k' j) ≤ 40500) ∧
      (∃ c, cell s C i j = Some c ∧ 0 ≤ c ≤ 40500).
Proof.
  apply (matrix_entries_bounded plain_env).
  - intros k _. reflexivity.
  - intros k. simpl. lia.
Defined.

(** C3 (amended): no result of [malloc] is checked.  When any of the
    1503 allocations fails (the three arrays of row pointers and the 1500
    rows), the run ends in an access through the null pointer during the
    allocation-and-fill phase: the clock was not read, the triple loop
    was not entered and nothing was printed. *)
Theorem allocation_failure_null_dereference (e : env) (k : nat) :
  (k < 3 + 3 * N)%nat → malloc_ok e k = false →
  ∃ s, main e init = Crash NullDeref s ∧ clocks s = 0%nat ∧ stdout s = [].
Proof. intros Hk Hfail. apply (main_n_failure e N N_positive k Hk Hfail). Qed.

Lemma allocation_failure_null_dereference_witness :
  ∃ s, main no_memory init = Crash NullDeref s ∧ clocks s = 0%nat ∧ stdout s = [].
Proof.
  apply (allocation_failure_null_dereference no_memory 0).
  - unfold N. lia.
  - reflexivity.
Defined.

(** C3 as stated fails: when every allocation fails, [main] stores
    through the null pointer [A] at line 16, after four calls of
    [malloc]. *)
Lemma allocation_failure_dereferences_null :
  malloc_ok no_memory 0 = false ∧
  main no_memory init = Crash NullDeref (State ∅ 4 0 0 []).
Proof. split; reflexivity. Qed.

(** *** Further properties of [main] *)

(** Either the first [m] calls of [malloc] succeed or one of them fails. *)
Lemma all_or_failure (e : env) (m : nat) :
  (∀ k, (k < m)%nat → malloc_ok e k = true) ∨
  (∃ k, (k < m)%nat ∧ malloc_ok e k = false).
Proof.
  induction m as [|m [IH|(k & Hk & Hf)]].
  - left. intros k Hk. lia.
  - destruct (malloc_ok e m) eqn:E.
    + left. intros k Hk. destruct (Nat.eq_dec k m) as [->|Hne]; [exact E|].
      apply IH. lia.
    + right. exists m. split; [lia|exact E].
  - right. exists k. split; [lia|exact Hf].
Qed.

(** X1: whatever [malloc], [rand()] and [clock()] return, a run of
    [main] ends in one of two ways: it returns 0 after printing one line,
    which happens exactly when none of the 1503 allocations fails, or it
    stops at an access through the null pointer with nothing printed.
    No access outside a block, no use of an uninitialised cell and no
    signed overflow occurs. *)
Theorem main_outcomes (e : env) :
  ((∀ k, (k < 3 + 3 * N)%nat → malloc_ok e k = true) ∧
   ∃ s, main e init = Done 0 s ∧ length (stdout s) = 1%nat) ∨
  ((∃ k, (k < 3 + 3 * N)%nat ∧ malloc_ok e k = false) ∧
   ∃ s, main e init = Crash NullDeref s ∧ stdout s = []).
Proof.
  destruct (all_or_failure e (3 + 3 * N)) as [Hok|(k & Hk & Hfail)].
  - left. split; [exact Hok|].
    destruct (main_n_run e N Hok N_fits) as (s1 & s3 & _ & _ & _ & _ & _ & _ & _ & E).
    eexists. split; [exact E|]. reflexivity.
  - right. split; [exists k; split; assumption|].
    destruct (main_n_failure e N N_positive k Hk Hfail) as (s & E & _ & Hout).
    exists s. split; [exact E|exact Hout].
Qed.

(** X2: a run of [main] in which no allocation fails makes 1503 calls of
    [malloc], 500000 calls of [rand()] and 2 calls of [clock()]. *)
Theorem main_call_counts (e : env) :
  (∀ k, (k < 3 + 3 * N)%nat → malloc_ok e k = true) →
  ∃ s, main e init = Done 0 s ∧
       Z.of_nat (mallocs s) = 1503 ∧
       Z.of_nat (rands s) = 500000 ∧
       Z.of_nat (clocks s) = 2.
Proof.
  intros Hok.
  destruct (main_n_run e N Hok N_fits) as (s1 & s3 & _ & _ & _ & _ & _ & _ & _ & E).
  eexists. split; [exact E|]. cbn [mallocs rands clocks]. unfold N. lia.
Qed.

Lemma main_call_counts_witness :
  ∃ s, main plain_env init = Done 0 s ∧
       Z.of_nat (mallocs s) = 1503 ∧
       Z.of_nat (rands s) = 500000 ∧
       Z.of_nat (clocks s) = 2.
Proof. apply (main_call_counts plain_env). intros k _. reflexivity. Defined.

(** X3: when no allocation fails, the fill leaves
    [A[i][j] = r(2 * (500 * i + j)) % 10],
    [B[i][j] = r(2 * (500 * i + j) + 1) % 10] and [C[i][j] = 0], where
    [r(k)] is the result of the [k]-th call of [rand()]: the calls
    alternate between A and B, row by row; it makes 500000 calls of
    [rand()] and none of [clock()]. *)
Theorem fill_contents (e : env) :
  (∀ k, (k < 3 + 3 * N)%nat → malloc_ok e k = true) →
  ∃ A B C s1,
    main_setup e N init = Done (A, B, C) s1 ∧
    Z.of_nat (rands s1) = 500000 ∧ clocks s1 = 0%nat ∧
    ∀ i j, (i < N)%nat → (j < N)%nat →
      cell s1 A i j = Some (Z.rem (rand_val e (2 * (i * N + j))%nat) 10) ∧
      cell s1 B i j = Some (Z.rem (rand_val e (2 * (i * N + j) + 1)%nat) 10) ∧
      cell s1 C i j = Some 0.
Proof.
  intros Hok.
  destruct (main_setup_run e N (3 + 3 * N) Hok ltac:(lia))
    as (s1 & E1 & _ & Hr & Hc & _ & Hs1).
  exists (VPtr 0), (VPtr 1), (VPtr 2), s1.
  split; [exact E1|]. split; [rewrite Hr; unfold N; lia|]. split; [exact Hc|].
  intros i j Hi Hj.
  rewrite !(matrices_cell N s1 (mset e N)) by (assumption || lia).
  split; [reflexivity|]. split; reflexivity.
Qed.

Lemma fill_contents_witness :
  ∃ A B C s1,
    main_setup plain_env N init = Done (A, B, C) s1 ∧
    Z.of_nat (rands s1) = 500000 ∧ clocks s1 = 0%nat ∧
    ∀ i j, (i < N)%nat → (j < N)%nat →
      cell s1 A i j = Some (Z.rem (rand_val plain_env (2 * (i * N + j))%nat) 10) ∧
      cell s1 B i j = Some (Z.rem (rand_val plain_env (2 * (i * N + j) + 1)%nat) 10) ∧
      cell s1 C i j = Some 0.
Proof. apply (fill_contents plain_env). intros k _. reflexivity. Defined.

(** X4: [main] returns without releasing anything: when no allocation
    fails, each of the 1503 blocks handed out by [malloc] is still
    allocated at the end, with its 500 cells. *)
Theorem blocks_live_at_exit (e : env) :
  (∀ k, (k < 3 + 3 * N)%nat → malloc_ok e k = true) →
  ∃ s, main e init = Done 0 s ∧
       ∀ b, (b < 3 + 3 * N)%nat →
         ∃ cells, heap s !! b = Some cells ∧ length cells = N.
Proof.
  intros Hok.
  destruct (main_n_run e N Hok N_fits) as (s1 & s3 & _ & _ & _ & _ & _ & _ & Hs3 & E).
  eexists. split; [exact E|]. cbn [heap]. intros b Hb.
  destruct (decide (b < 3)%nat) as [Hlt|Hge].
  - destruct (shape_spine_block N _ _ _ _ b Hs3 Hlt) as (cells & Hc & Hl). eauto.
  - assert (∃ o i, b = row_block o i ∧ (o < 3)%nat ∧ (i < N)%nat)
      as (o & i & -> & Ho & Hi).
    { exists ((b - 3) mod 3)%nat, ((b - 3) / 3)%nat.
      pose proof (Nat.div_mod_eq (b - 3) 3). pose proof (Nat.mod_upper_bound (b - 3) 3).
      unfold row_block. lia. }
    destruct (shape_row N _ _ _ _ o i Hs3 Ho Hi eq_refl) as (row & Hr & Hl & _). eauto.
Qed.

Lemma blocks_live_at_exit_witness :
  ∃ s, main plain_env init = Done 0 s ∧
       ∀ b, (b < 3 + 3 * N)%nat →
         ∃ cells, heap s !! b = Some cells ∧ length cells = N.
Proof. apply (blocks_live_at_exit plain_env). intros k _. reflexivity. Defined.

(** X5: the program with its constant [N] replaced by any dimension [n]
    such that [81 * n] fits in [int] (up to 26512143) returns 0, when no
    allocation fails, with [C[i][j]] the sum over [k < n] of
    [A[i][k] * B[k][j]] for all [i, j < n], whatever [rand()] returns. *)
Theorem main_n_product (e : env) (n : nat) :
  81 * Z.of_nat n ≤ INT_MAX →
  (∀ k, (k < 3 + 3 * n)%nat → malloc_ok e k = true) →
  ∃ s, main_n e n init = Done 0 s ∧
       ∀ i j, (i < n)%nat → (j < n)%nat →
         cell s (VPtr 2) i j =
           Some (Zsum n (λ k, entry s (VPtr 0) i k * entry s (VPtr 1) k j)).
Proof.
  intros Hn Hok.
  destruct (main_n_run e n Hok Hn) as (s1 & s3 & _ & _ & _ & _ & _ & _ & Hs3 & E).
  eexists. split; [exact E|]. intros i j Hi Hj.
  assert (∀ o i' j', (o < 3)%nat → (i' < n)%nat → (j' < n)%nat →
            cell (State (heap s3) (3 + 3 * n) (2 * (n * n)) 2
                    [Printf ("Elapsed time: %.4f" ++ newline)
                       [ArgDouble (ClockSeconds (clock_val e s3 - clock_val e s1))]])
                 (VPtr o) i' j' = Some (final e n o i' j')) as Hcell.
  { intros o i' j' Ho Hi' Hj'. rewrite (cell_heap s3) by reflexivity.
    apply (matrices_cell n); assumption. }
  rewrite Hcell by (assumption || lia). f_equal.
  rewrite final_C by assumption. apply Zsum_ext. intros k Hk. unfold entry.
  rewrite !Hcell by (assumption || lia). reflexivity.
Qed.

Lemma main_n_product_witness :
  ∃ s, main_n example_env 2 init = Done 0 s ∧
       ∀ i j, (i < 2)%nat → (j < 2)%nat →
         cell s (VPtr 2) i j =
           Some (Zsum 2 (λ k, entry s (VPtr 0) i k * entry s (VPtr 1) k j)).
Proof.
  apply (main_n_product example_env 2).
  - unfold INT_MAX. lia.
  - intros k _. reflexivity.
Defined.

End MatrixMultiplyBenchmark.

(** ** Both programs *)

(** C8: a run of MatrixMultiplyBenchmark in which no allocation fails
    makes one call of [printf], with the format
    ["Elapsed time: %.4f\n"] and the clock ticks elapsed over the triple
    loop: from the call of [clock()] made in the state [s1] that the
    fill leaves, where C is still zero, to the call made in the state
    [s3] that the triple loop leaves, where C is the product.  A run of
    PrimeRangeCounter makes one call of [printf], with the format
    ["Found %d primes in %.3f seconds\n"], the number of primes among
    the candidates 90000000000, ..., 90000100000 and the clock ticks
    elapsed over the counting loop: from the call of [clock()] made
    before any candidate was tested to the call made when all of them
    were.  Each format has one newline, its last character. *)
Theorem output_format (e : task.env) (clock_val : task2.state → Z) :
  ((∀ k, (k < 3 + 3 * task.N)%nat → task.malloc_ok e k = true) →
   ∃ A B C s1 s2 s3 s,
     task.main_setup e task.N task.init = Done (A, B, C) s1 ∧
     task.clocks s1 = 0%nat ∧
     task.clock e s1 = Done (task.clock_val e s1) s2 ∧
     task.main_multiply task.N A B C s2 = Done () s3 ∧
     task.clocks s3 = 1%nat ∧
     (∀ i j, (i < task.N)%nat → (j < task.N)%nat →
        task.cell s2 C i j = Some 0 ∧
        task.cell s3 C i j =
          Some (task.Zsum task.N
                  (λ k, task.entry s2 A i k * task.entry s2 B k j))) ∧
     task.main e task.init = Done 0 s ∧
     task.stdout s =
       [Printf ("Elapsed time: %.4f" ++ newline)
          [ArgDouble
             (ClockSeconds (task.clock_val e s3 - task.clock_val e s1))]]) ∧
  (∃ s,
     task2.main clock_val task2.init = Done 0 s ∧
     task2.probes s = seqZ 90000000000 100001 ∧
     (∀ n, n ∈ task2.probes s → (task2.affirms n = true ↔ Z.prime n)) ∧
     task2.stdout s =
       [Printf ("Found %d primes in %.3f seconds" ++ newline)
          [ArgInt (Z.of_nat (length (filter (λ n, task2.affirms n = true)
                                            (task2.probes s))));
           ArgDouble
             (ClockSeconds (clock_val (task2.State 1 [] (task2.probes s))
                            - clock_val task2.init))]]) ∧
  one_line ("Elapsed time: %.4f" ++ newline) ∧
  one_line ("Found %d primes in %.3f seconds" ++ newline).
Proof.
  split_and!.
  - intros Hok.
    destruct (MatrixMultiplyBenchmark.main_n_run e task.N Hok
                MatrixMultiplyBenchmark.N_fits)
      as (s1 & s3 & E1 & Hc1 & Ho1 & Hs1 & E3 & Hc3 & Hs3 & E).
    exists (task.VPtr 0), (task.VPtr 1), (task.VPtr 2), s1,
      (task.State (task.heap s1) (task.mallocs s1) (task.rands s1) 1 []), s3.
    eexists. split; [exact E1|]. split; [exact Hc1|].
    split; [unfold task.clock; rewrite Hc1, Ho1; reflexivity|].
    split; [exact E3|]. split; [exact Hc3|]. split; [|split; [exact E|reflexivity]].
    intros i j Hi Hj.
    assert (∀ o i' j', (o < 3)%nat → (i' < task.N)%nat → (j' < task.N)%nat →
              task.cell
                (task.State (task.heap s1) (task.mallocs s1) (task.rands s1) 1 [])
                (task.VPtr o) i' j' = Some (task.mset e task.N o i' j')) as Hbefore.
    { intros o i' j' Ho Hi' Hj'.
      rewrite (MatrixMultiplyBenchmark.cell_heap s1) by reflexivity.
      apply (MatrixMultiplyBenchmark.matrices_cell task.N); assumption. }
    split; [apply Hbefore; (lia || assumption)|].
    rewrite (MatrixMultiplyBenchmark.matrices_cell task.N s3 (task.final e task.N))
      by (assumption || lia).
    f_equal. rewrite MatrixMultiplyBenchmark.final_C by assumption.
    apply MatrixMultiplyBenchmark.Zsum_ext. intros k Hk. unfold task.entry.
    rewrite !Hbefore by (assumption || lia). reflexivity.
  - destruct (PrimeRangeCounter.main_run clock_val) as (L & HL & E).
    eexists. split; [exact E|]. cbn [task2.probes task2.stdout].
    split; [exact HL|]. split; [|reflexivity].
    intros n Hn. rewrite HL in Hn. apply elem_of_seqZ in Hn.
    destruct (PrimeRangeCounter.affirms_prime n) as [(Hp & _ & ->)|(Hp & _ & ->)].
    + unfold task2.overflow_bound. lia.
    + split; [intros _; exact Hp|reflexivity].
    + split; [discriminate|]. intros Hp'. destruct (Hp Hp').
  - split; reflexivity.
  - split; reflexivity.
Qed.

Lemma output_format_witness :
  ∃ s,
    task.main task.plain_env task.init = Done 0 s ∧
    task.stdout s =
      [Printf ("Elapsed time: %.4f" ++ newline) [ArgDouble (ClockSeconds 1)]].
Proof.
  destruct (proj1 (output_format task.plain_env (λ _, 0)))
    as (A & B & C & s1 & s2 & s3 & s & _ & Hc1 & _ & _ & Hc3 & _ & E & Hout).
  - intros k _. reflexivity.
  - exists s. split; [exact E|]. rewrite Hout.
    cbn [task.clock_val task.plain_env]. rewrite Hc1, Hc3. reflexivity.
Defined.
